(** * lfl_data_upload: the dated-folder spreadsheet pipeline

    A shallow embedding of [src/lfl_data_upload/main.py]: the date validator
    [_is_date_in_source], the batch transform [process] and the command line
    entry point [main], together with the behaviour of the Python, pandas and
    numpy operations they call.

    Text is a [string] whose characters are code points below 256.  Integers
    are [Z]; the 16-bit column has its wrap-around written out.  Effects (log
    records, the spreadsheet read, the CSV write) are collected in a trace by
    a small error-and-log monad. *)

From Stdlib Require Import ZArith List String Ascii Bool Lia Permutation Sorted.
Import ListNotations.
Local Open Scope Z_scope.

(* ================================================================== *)
(** ** Exceptions, events and the [Run] monad *)

(** Python exceptions, identified by class; a class stands for its
    subclasses too.  The message text is kept only for the one exception
    the program builds itself; [DataProcessingError] also records the
    exception it was raised [from]. *)
Inductive exn : Type :=
| ValueError
| IndexError
| TypeError
| OverflowError
| OSError
| SystemExit
| OtherException (cls : string)
| DataProcessingError (msg : string) (cause : exn).

Definition is_ValueError (e : exn) : bool :=
  match e with ValueError => true | _ => false end.

Definition is_DataProcessingError (e : exn) : bool :=
  match e with DataProcessingError _ _ => true | _ => false end.

(** A row of the written CSV file: the index column is not written. *)
Record CsvRow : Type := mkCsvRow {
  csv_center_id : Z;
  csv_lfl_status : option string;
  csv_Date : string
}.

(** What a run does to the outside world, in order. *)
Inductive event : Type :=
| LogWarning (source_folder path : string)
| ReadExcel (path : string)
| ToCsv (path : string) (rows : list CsvRow)
| LogException (e : exn).

Definition Run (A : Type) : Type := (list event * (exn + A))%type.

Definition ret {A} (a : A) : Run A := ([], inr a).
Definition raise {A} (e : exn) : Run A := ([], inl e).
Definition log (ev : event) : Run unit := ([ev], inr tt).

Definition bind {A B} (m : Run A) (f : A -> Run B) : Run B :=
  match m with
  | (tr, inl e) => (tr, inl e)
  | (tr, inr a) => let (tr', r) := f a in (tr ++ tr', r)
  end.

(** [try: m except <class>: handler]: the handler runs for the exceptions
    that [catches] selects, every other exception propagates. *)
Definition try_except {A} (m : Run A) (catches : exn -> bool)
    (handler : exn -> Run A) : Run A :=
  match m with
  | (tr, inl e) =>
      if catches e then let (tr', r) := handler e in (tr ++ tr', r)
      else (tr, inl e)
  | (tr, inr a) => (tr, inr a)
  end.

Definition lift {A} (r : exn + A) : Run A := ([], r).

Declare Scope run_scope.
Delimit Scope run_scope with run.
Notation "x <- m ;; k" := (bind m (fun x => k))
  (at level 61, m at next level, right associativity) : run_scope.
Notation "m ;;; k" := (bind m (fun _ => k))
  (at level 61, right associativity) : run_scope.

(* ================================================================== *)
(** ** Python text *)

Definition code (c : ascii) : Z := Z.of_N (N_of_ascii c).

Definition in_range (lo hi : Z) (c : ascii) : bool :=
  (lo <=? code c) && (code c <=? hi).

(** [\d] of [re] and the decimal digits [int] understands: on code points
    below 256 these are the ten ASCII digits. *)
Definition is_decimal (c : ascii) : bool := in_range 48 57 c.

Definition digit_value (c : ascii) : Z := code c - 48.

(** [str.isdigit] on one character: the decimal digits and the superscript
    digits U+00B2, U+00B3 and U+00B9. *)
Definition char_isdigit (c : ascii) : bool :=
  is_decimal c || (code c =? 178) || (code c =? 179) || (code c =? 185).

Fixpoint all_chars (p : ascii -> bool) (s : string) : bool :=
  match s with
  | EmptyString => true
  | String c r => p c && all_chars p r
  end.

(** [str.isdigit]: every character is a digit and there is at least one. *)
Definition str_isdigit (s : string) : bool :=
  match s with
  | EmptyString => false
  | String _ _ => all_chars char_isdigit s
  end.

(** [a / b] of [pathlib] for a relative child name. *)
Definition path_join (a b : string) : string :=
  (a ++ "/" ++ b)%string.

(** The built-in [max] over an iterable of [str]: the first greatest item,
    [ValueError] when the iterable is empty. *)
Definition max_step (m y : string) : string :=
  if (m <? y)%string then y else m.

Definition py_max (l : list string) : exn + string :=
  match l with
  | [] => inl ValueError
  | x :: xs => inr (fold_left max_step xs x)
  end.

(** [list(...)[0]]. *)
Definition item0 {A} (l : list A) : exn + A :=
  match l with
  | [] => inl IndexError
  | x :: _ => inr x
  end.

(* ================================================================== *)
(** ** [datetime.strptime(date, "%Y-%m-%d")]

    [_strptime] compiles the format to the regular expression

      (?P<Y>\d\d\d\d)-(?P<m>1[0-2]|0[1-9]|[1-9])-(?P<d>3[0-1]|[1-2]\d|0[1-9]|[1-9]| [1-9])

    matches it at the start of the text, fails if text remains after the
    match, and then builds the date, which fails for year 0 and for a day
    the month does not have. *)

(** One alternative of a group: the value of the matched text and the rest. *)
Definition alt : Type := string -> option (Z * string).

Definition one (p : ascii -> bool) (f : ascii -> Z) : alt :=
  fun s => match s with
           | String c r => if p c then Some (f c, r) else None
           | EmptyString => None
           end.

Definition two (p1 p2 : ascii -> bool) (f : ascii -> ascii -> Z) : alt :=
  fun s => match s with
           | String c1 (String c2 r) =>
               if p1 c1 && p2 c2 then Some (f c1 c2, r) else None
           | _ => None
           end.

Definition lit (ch : Z) (c : ascii) : bool := code c =? ch.

(** [1[0-2]|0[1-9]|[1-9]] *)
Definition month_alts : list alt :=
  [ two (lit 49) (in_range 48 50) (fun _ c => 10 + digit_value c);
    two (lit 48) (in_range 49 57) (fun _ c => digit_value c);
    one (in_range 49 57) digit_value ].

(** [3[0-1]|[1-2]\d|0[1-9]|[1-9]| [1-9]] *)
Definition day_alts : list alt :=
  [ two (lit 51) (in_range 48 49) (fun _ c => 30 + digit_value c);
    two (in_range 49 50) is_decimal
        (fun c1 c2 => 10 * digit_value c1 + digit_value c2);
    two (lit 48) (in_range 49 57) (fun _ c => digit_value c);
    one (in_range 49 57) digit_value;
    two (lit 32) (in_range 49 57) (fun _ c => digit_value c) ].

(** Ordered alternation with backtracking into the continuation [k]. *)
Fixpoint first_match {B} (alts : list alt) (k : Z -> string -> option B)
    (s : string) : option B :=
  match alts with
  | [] => None
  | a :: alts' =>
      match a s with
      | Some (v, r) =>
          match k v r with
          | Some b => Some b
          | None => first_match alts' k s
          end
      | None => first_match alts' k s
      end
  end.

(** [\d\d\d\d] *)
Definition year_group : alt :=
  fun s => match s with
           | String a (String b (String c (String d r))) =>
               if is_decimal a && is_decimal b && is_decimal c && is_decimal d
               then Some (1000 * digit_value a + 100 * digit_value b
                          + 10 * digit_value c + digit_value d, r)
               else None
           | _ => None
           end.

Definition dash (s : string) : option string :=
  match s with
  | String c r => if lit 45 c then Some r else None
  | EmptyString => None
  end.

(** [-(?P<m>...)-(?P<d>...)]: month, day and the text left after them. *)
Definition month_day_groups (s : string) : option (Z * Z * string) :=
  match dash s with
  | None => None
  | Some r2 =>
      first_match month_alts
        (fun m r3 =>
           match dash r3 with
           | None => None
           | Some r4 => first_match day_alts (fun d r5 => Some (m, d, r5)) r4
           end) r2
  end.

(** [format_regex.match(data_string)]: year, month, day and the text left
    after the match. *)
Definition format_regex_match (s : string) : option (Z * Z * Z * string) :=
  match year_group s with
  | None => None
  | Some (y, r1) =>
      match month_day_groups r1 with
      | None => None
      | Some (m, d, rest) => Some (y, m, d, rest)
      end
  end.

Definition is_leap (y : Z) : bool :=
  (y mod 4 =? 0) && (negb (y mod 100 =? 0) || (y mod 400 =? 0)).

Definition days_in_month (y m : Z) : Z :=
  if m =? 2 then (if is_leap y then 29 else 28)
  else if (m =? 4) || (m =? 6) || (m =? 9) || (m =? 11) then 30
  else 31.

(** The checks of the [date] constructor. *)
Definition date_ok (y m d : Z) : bool :=
  (1 <=? y) && (y <=? 9999) && (1 <=? m) && (m <=? 12)
  && (1 <=? d) && (d <=? days_in_month y m).

Definition strptime (s : string) : exn + (Z * Z * Z) :=
  match format_regex_match s with
  | None => inl ValueError
  | Some (y, m, d, rest) =>
      match rest with
      | String _ _ => inl ValueError
      | EmptyString => if date_ok y m d then inr (y, m, d) else inl ValueError
      end
  end.

(** [_is_date_in_source(source_folder)] returns this closure: [True] when
    the name parses, a logged warning and [False] when it does not. *)
Definition _is_date_in_source (source_folder : string) (date : string)
    : Run bool :=
  match strptime date with
  | inr _ => ret true
  | inl _ =>
      bind (log (LogWarning source_folder (path_join source_folder date)))
           (fun _ => ret false)
  end.

(** The pure verdict of the validator. *)
Definition is_date (date : string) : bool :=
  match strptime date with inr _ => true | inl _ => false end.

(* ================================================================== *)
(** ** [int(text)]

    Surrounding white space is dropped, one sign may lead, and the digits
    may be separated by single underscores.  More than 4300 digits are
    refused (the interpreter's default limit for integer string
    conversion).  Any other text is a [ValueError]. *)

Definition int_space (c : ascii) : bool :=
  in_range 9 13 c || (code c =? 32) || (code c =? 133) || (code c =? 160).

Fixpoint lstrip (l : list ascii) : list ascii :=
  match l with
  | c :: r => if int_space c then lstrip r else l
  | [] => []
  end.

Definition strip (l : list ascii) : list ascii :=
  rev (lstrip (rev (lstrip l))).

(** Digits with single underscores between them: the value and the number
    of digits.  [after_digit] tells whether the previous character was a
    digit. *)
Fixpoint digits_from (l : list ascii) (acc : Z) (n : Z) (after_digit : bool)
    : option (Z * Z) :=
  match l with
  | [] => if after_digit then Some (acc, n) else None
  | c :: r =>
      if is_decimal c then digits_from r (10 * acc + digit_value c) (n + 1) true
      else if (code c =? 95) && after_digit then digits_from r acc n false
      else None
  end.

Definition max_str_digits : Z := 4300.

Definition py_int (s : string) : exn + Z :=
  let body := strip (list_ascii_of_string s) in
  let '(sign, digits) :=
    match body with
    | c :: r => if code c =? 43 then (1, r)
                else if code c =? 45 then (-1, r)
                else (1, body)
    | [] => (1, body)
    end in
  match digits_from digits 0 0 false with
  | None => inl ValueError
  | Some (v, n) => if max_str_digits <? n then inl ValueError else inr (sign * v)
  end.

(* ================================================================== *)
(** ** numpy: storing an object into an [int16] array

    Casting an object array to [int16] stores each element with the item
    setter of the type: an object that is not a Python [int] is converted
    with [int(...)], read as a C [long] ([OverflowError] when it does not
    fit; 64 bits on the usual platforms) and then cast to a C [short],
    which keeps the low 16 bits. *)

Definition LONG_MIN : Z := - 2 ^ 63.
Definition LONG_MAX : Z := 2 ^ 63 - 1.

Definition INT16_MIN : Z := -32768.
Definition INT16_MAX : Z := 32767.

Definition to_int16 (n : Z) : Z := (n + 32768) mod 65536 - 32768.

Definition SHORT_setitem (s : string) : exn + Z :=
  match py_int s with
  | inl e => inl e
  | inr n =>
      if (LONG_MIN <=? n) && (n <=? LONG_MAX) then inr (to_int16 n)
      else inl OverflowError
  end.

(* ================================================================== *)
(** ** pandas frames *)

(** A value of the nullable ["string"] dtype: [None] is [pd.NA]. *)
Definition Cell : Type := option string.

(** A row of the frame [read_excel] returns, after the rename. *)
Record StrRow : Type := mkStrRow {
  s_index : nat;
  s_center_id : Cell;
  s_lfl_status : Cell
}.

(** A row of the frame after [assign]. *)
Record Row : Type := mkRow {
  index : nat;
  center_id : Z;
  lfl_status : Cell;
  Date : string
}.

(** The frame of a sheet: the two columns with a [RangeIndex]. *)
Fixpoint frame_from (i : nat) (cells : list (Cell * Cell)) : list StrRow :=
  match cells with
  | [] => []
  | (g, l) :: r => mkStrRow i g l :: frame_from (S i) r
  end.

Definition frame_of_sheet (cells : list (Cell * Cell)) : list StrRow :=
  frame_from 0 cells.

(** [Series.str.isdigit()]: a nullable boolean, missing where the text is. *)
Definition series_str_isdigit (col : list Cell) : list (option bool) :=
  map (option_map str_isdigit) col.

(** [Series.isin(values)]: a plain boolean, [False] for a missing value. *)
Definition series_isin (values : list string) (col : list Cell) : list bool :=
  map (fun c => match c with
                | Some s => existsb (String.eqb s) values
                | None => false
                end) col.

(** [&] of a nullable boolean with a boolean (Kleene logic). *)
Definition kleene_and (a : option bool) (b : bool) : option bool :=
  match a, b with
  | _, false => Some false
  | Some x, true => Some x
  | None, true => None
  end.

Fixpoint series_and (a : list (option bool)) (b : list bool)
    : list (option bool) :=
  match a, b with
  | x :: a', y :: b' => kleene_and x y :: series_and a' b'
  | _, _ => []
  end.

(** [df[mask]] with a nullable boolean mask: a missing entry selects
    nothing, as [False] does. *)
Fixpoint getitem_mask {A} (df : list A) (mask : list (option bool)) : list A :=
  match df, mask with
  | r :: df', m :: mask' =>
      match m with
      | Some true => r :: getitem_mask df' mask'
      | _ => getitem_mask df' mask'
      end
  | _, _ => []
  end.

(** [Series.astype("int16")] of a ["string"] column. *)
Fixpoint astype_int16 (col : list Cell) : exn + list Z :=
  match col with
  | [] => inr []
  | c :: r =>
      match c with
      | None => inl TypeError
      | Some s =>
          match SHORT_setitem s with
          | inl e => inl e
          | inr v =>
              match astype_int16 r with
              | inl e => inl e
              | inr vs => inr (v :: vs)
              end
          end
      end
  end.

Fixpoint with_columns (df : list StrRow) (ids : list Z) (date : string)
    : list Row :=
  match df, ids with
  | r :: df', v :: ids' =>
      mkRow (s_index r) v (s_lfl_status r) date :: with_columns df' ids' date
  | _, _ => []
  end.

(** [df.assign(center_id=lambda df: df["center_id"].astype("int16"),
    Date=latest_folder)]. *)
Definition assign (df : list StrRow) (latest_folder : string)
    : exn + list Row :=
  match astype_int16 (map s_center_id df) with
  | inl e => inl e
  | inr ids => inr (with_columns df ids latest_folder)
  end.

(** [take]: the rows at the given positions, [IndexError] out of bounds. *)
Fixpoint take {A} (df : list A) (indexer : list nat) : exn + list A :=
  match indexer with
  | [] => inr []
  | i :: r =>
      match nth_error df i with
      | None => inl IndexError
      | Some x =>
          match take df r with
          | inl e => inl e
          | inr xs => inr (x :: xs)
          end
      end
  end.

(** Lines 74-77: [excel_df[excel_df["center_id"].str.isdigit()
    & excel_df["lfl_status"].isin(["LFL", "Non-LFL"])]]. *)
Definition row_filter (excel_df : list StrRow) : list StrRow :=
  getitem_mask excel_df
    (series_and (series_str_isdigit (map s_center_id excel_df))
                (series_isin ["LFL"; "Non-LFL"]%string
                             (map s_lfl_status excel_df))).

(** A row passes the filter: both cells are present, the identifier is
    [isdigit] and the status is one of the two literals. *)
Definition passes (r : StrRow) : bool :=
  match s_center_id r, s_lfl_status r with
  | Some id, Some st =>
      str_isdigit id && ((st =? "LFL") || (st =? "Non-LFL"))%string
  | _, _ => false
  end.

Definition csv_row (r : Row) : CsvRow :=
  mkCsvRow (center_id r) (lfl_status r) (Date r).

(* ================================================================== *)
(** ** The program: [process] and [main] *)

(** The outside world of one run. *)
Record Env : Type := mkEnv {
  (** names of the entries [Path(dir).glob("*")] yields, in its order;
      nothing when [dir] has no entries or is no directory *)
  glob_star : string -> list string;
  (** what [pd.read_excel(path, usecols=["Gym ID", "LFL Status"],
      dtype="string")] does: the two columns of the sheet, or the
      exception it raises *)
  read_excel_file : string -> exn + list (Cell * Cell);
  (** the error of opening a path for writing, if any *)
  open_error : string -> option exn;
  sys_argv : list string
}.

Section Pipeline.

(** [numpy.argsort(kind="quicksort")] on the [int16] column: the
    positions of the rows in their sorted order. *)
Variable argsort : list Z -> list nat.

(** [ArgumentParser.parse_args] for the two positional arguments. *)
Variable parse_args : list string -> exn + (string * string).

Variable env : Env.

Local Open Scope run_scope.

(** [df.sort_values(["center_id"])]: the default kind is quicksort. *)
Definition sort_values (df : list Row) : exn + list Row :=
  take df (argsort (map center_id df)).

(** Lines 73-83: filter, convert and stamp, sort. *)
Definition transform (excel_df : list StrRow) (latest_folder : string)
    : exn + list Row :=
  match assign (row_filter excel_df) latest_folder with
  | inl e => inl e
  | inr df => sort_values df
  end.

(** The generator [path.name for path in source_folder.glob("*") if
    is_date(path.name)], run to its end. *)
Fixpoint date_names (is_date : string -> Run bool) (names : list string)
    : Run (list string) :=
  match names with
  | [] => ret []
  | n :: r =>
      b <- is_date n ;;
      ns <- date_names is_date r ;;
      ret (if b then n :: ns else ns)
  end.

(** [max(path.name for path in ... if is_date(path.name))]. *)
Definition max_date_name (is_date : string -> Run bool)
    (names : list string) : Run string :=
  names <- date_names is_date names ;;
  lift (py_max names).

Definition read_excel (path : string) : Run (list StrRow) :=
  log (ReadExcel path) ;;;
  match read_excel_file env path with
  | inl e => raise e
  | inr cells => ret (frame_of_sheet cells)
  end.

Definition to_csv (df : list Row) (path : string) : Run unit :=
  match open_error env path with
  | Some e => raise e
  | None => log (ToCsv path (map csv_row df))
  end.

Definition process (source_folder destination_file : string) : Run unit :=
  let is_date := _is_date_in_source source_folder in
  latest_folder <-
    max_date_name is_date (glob_star env source_folder) ;;
  let dated := path_join source_folder latest_folder in
  input_file_name <-
    lift (item0 (map (path_join dated) (glob_star env dated))) ;;
  excel_df <-
    try_except (read_excel input_file_name) is_ValueError
      (fun exc =>
         raise (DataProcessingError
                  (input_file_name ++ " is not an excel file")%string exc)) ;;
  excel_df <- lift (transform excel_df latest_folder) ;;
  to_csv excel_df destination_file.

(** [main(argv)]: the value returned, or the exception that escapes. *)
Definition main (argv : option (list string)) : Run Z :=
  args <- lift (parse_args (match argv with
                            | Some a => a
                            | None => sys_argv env
                            end)) ;;
  try_except
    (process (fst args) (snd args) ;;; ret 0)
    is_DataProcessingError
    (fun exc => log (LogException exc) ;;; ret 1).

End Pipeline.

(** The warnings of the folder scan: one per rejected name, in order. *)
Definition warnings (source_folder : string) (names : list string)
    : list event :=
  map (fun n => LogWarning source_folder (path_join source_folder n))
      (filter (fun n => negb (is_date n)) names).

(** What [process] does, one stage after the other. *)
Definition process_stages (argsort : list Z -> list nat) (env : Env)
    (src dst : string) : Run unit :=
  let w := warnings src (glob_star env src) in
  match py_max (filter is_date (glob_star env src)) with
  | inl e => (w, inl e)
  | inr latest =>
      let dated := path_join src latest in
      match item0 (map (path_join dated) (glob_star env dated)) with
      | inl e => (w, inl e)
      | inr file =>
          match read_excel_file env file with
          | inl e =>
              (w ++ [ReadExcel file],
               inl (if is_ValueError e
                    then DataProcessingError
                           (file ++ " is not an excel file")%string e
                    else e))
          | inr cells =>
              match transform argsort (frame_of_sheet cells) latest with
              | inl e => (w ++ [ReadExcel file], inl e)
              | inr out =>
                  match open_error env dst with
                  | Some e => (w ++ [ReadExcel file], inl e)
                  | None =>
                      (w ++ [ReadExcel file; ToCsv dst (map csv_row out)],
                       inr tt)
                  end
              end
          end
      end
  end.

(* ================================================================== *)
(** ** numpy: [argsort] with [kind="quicksort"]

    The index sort of npysort ([aquicksort_] in quicksort.cpp): an
    introsort on the array [tosort] of positions that compares the values
    they point to.  A partition longer than [SMALL_QUICKSORT] is split
    around the median of three, a short one is finished by insertion sort,
    and a partition nested deeper than twice the bit length of the input is
    sorted by [aheapsort_].  Positions in [tosort] play the part of the
    pointers [pl], [pr], [pi], [pj]. *)

Definition geti (a : list nat) (i : nat) : nat := nth i a 0%nat.

Fixpoint seti (a : list nat) (i : nat) (x : nat) : list nat :=
  match a, i with
  | [], _ => []
  | _ :: r, O => x :: r
  | y :: r, S i' => y :: seti r i' x
  end.

Definition INTP_SWAP (a : list nat) (i j : nat) : list nat :=
  seti (seti a i (geti a j)) j (geti a i).

(** [v[*p]] *)
Definition deref (v : list Z) (a : list nat) (p : nat) : Z :=
  nth (geti a p) v 0.

Definition SMALL_QUICKSORT : nat := 16.

(** [do { ++pi; } while (v[*pi] < vp);] *)
Fixpoint scan_up (fuel : nat) (v : list Z) (a : list nat) (vp : Z)
    (pi : nat) : nat :=
  match fuel with
  | O => pi
  | S f => if deref v a (S pi) <? vp then scan_up f v a vp (S pi) else S pi
  end.

(** [do { --pj; } while (vp < v[*pj]);] *)
Fixpoint scan_down (fuel : nat) (v : list Z) (a : list nat) (vp : Z)
    (pj : nat) : nat :=
  match fuel with
  | O => pj
  | S f =>
      if vp <? deref v a (pred pj) then scan_down f v a vp (pred pj)
      else pred pj
  end.

(** The [for (;;)] loop of the partition. *)
Fixpoint hoare_loop (fuel : nat) (v : list Z) (a : list nat) (vp : Z)
    (pi pj : nat) : list nat * nat :=
  match fuel with
  | O => (a, pi)
  | S f =>
      let pi' := scan_up (List.length a) v a vp pi in
      let pj' := scan_down (List.length a) v a vp pj in
      if (pj' <=? pi')%nat then (a, pi')
      else hoare_loop f v (INTP_SWAP a pi' pj') vp pi' pj'
  end.

Definition swap_if_less (v : list Z) (a : list nat) (p q : nat) : list nat :=
  if deref v a p <? deref v a q then INTP_SWAP a p q else a.

(** One quicksort partition of [pl..pr]: the array and the pivot place. *)
Definition partition_step (v : list Z) (a : list nat) (pl pr : nat)
    : list nat * nat :=
  let pm := (pl + (pr - pl) / 2)%nat in
  let a := swap_if_less v a pm pl in
  let a := swap_if_less v a pr pm in
  let a := swap_if_less v a pm pl in
  let vp := deref v a pm in
  let pj := (pr - 1)%nat in
  let a := INTP_SWAP a pm pj in
  let '(a, pi) := hoare_loop (List.length a) v a vp pl pj in
  (INTP_SWAP a pi (pr - 1), pi).

Definition segment : Type := (nat * nat * Z)%type.

(** [while ((pr - pl) > SMALL_QUICKSORT)]: partition, push the larger part
    with the new depth, go on with the smaller one. *)
Fixpoint split_loop (fuel : nat) (v : list Z) (a : list nat) (pl pr : nat)
    (stack : list segment) (cdepth : Z)
    : list nat * nat * nat * list segment :=
  match fuel with
  | O => (a, pl, pr, stack)
  | S f =>
      if (SMALL_QUICKSORT <? pr - pl)%nat then
        let '(a, pi) := partition_step v a pl pr in
        let cdepth := cdepth - 1 in
        if (pi - pl <? pr - pi)%nat
        then split_loop f v a pl (pi - 1)
                        ((pi + 1, pr, cdepth)%nat :: stack) cdepth
        else split_loop f v a (pi + 1) pr
                        ((pl, pi - 1, cdepth)%nat :: stack) cdepth
      else (a, pl, pr, stack)
  end.

(** [while (pj > pl && vp < v[*pk]) { *pj-- = *pk--; }] *)
Fixpoint shift_loop (fuel : nat) (v : list Z) (a : list nat) (vp : Z)
    (pl pj : nat) : list nat * nat :=
  match fuel with
  | O => (a, pj)
  | S f =>
      if (pl <? pj)%nat && (vp <? deref v a (pj - 1))
      then shift_loop f v (seti a pj (geti a (pj - 1))) vp pl (pj - 1)
      else (a, pj)
  end.

Fixpoint insertion_loop (fuel : nat) (v : list Z) (a : list nat)
    (pl pi pr : nat) : list nat :=
  match fuel with
  | O => a
  | S f =>
      if (pi <=? pr)%nat then
        let vi := geti a pi in
        let '(a', pj) := shift_loop (List.length a) v a (nth vi v 0) pl pi in
        insertion_loop f v (seti a' pj vi) pl (S pi) pr
      else a
  end.

Definition insertion_sort (v : list Z) (a : list nat) (pl pr : nat)
    : list nat :=
  insertion_loop (List.length a) v a pl (S pl) pr.

(** The heap of [aheapsort_] is indexed from 1: [a[k]] is the position
    [base + k - 1] of [tosort]. *)
Definition heap_pos (base k : nat) : nat := (base + k - 1)%nat.

(** The sift-down loop, ending with [a[i] = tmp]. *)
Fixpoint sift (fuel : nat) (v : list Z) (a : list nat) (base tmp i j n : nat)
    : list nat :=
  match fuel with
  | O => seti a (heap_pos base i) tmp
  | S f =>
      if (j <=? n)%nat then
        let j :=
          if (j <? n)%nat
             && (deref v a (heap_pos base j) <? deref v a (heap_pos base (j + 1)))
          then (j + 1)%nat else j in
        if nth tmp v 0 <? deref v a (heap_pos base j)
        then sift f v (seti a (heap_pos base i) (geti a (heap_pos base j)))
                  base tmp j (j + j) n
        else seti a (heap_pos base i) tmp
      else seti a (heap_pos base i) tmp
  end.

(** [for (l = n >> 1; l > 0; --l)] *)
Fixpoint heapify (l : nat) (v : list Z) (a : list nat) (base n : nat)
    : list nat :=
  match l with
  | O => a
  | S l' =>
      heapify l' v
        (sift (List.length a) v a base (geti a (heap_pos base l)) l (l + l) n)
        base n
  end.

(** [for (; n > 1;)] *)
Fixpoint heap_pop (n : nat) (v : list Z) (a : list nat) (base : nat)
    : list nat :=
  match n with
  | O => a
  | S n' =>
      if (1 <? n)%nat then
        let tmp := geti a (heap_pos base n) in
        let a := seti a (heap_pos base n) (geti a (heap_pos base 1)) in
        heap_pop n' v (sift (List.length a) v a base tmp 1 2 n') base
      else a
  end.

Definition aheapsort (v : list Z) (a : list nat) (base n : nat) : list nat :=
  heap_pop n v (heapify (n / 2) v a base n) base.

(** The [while (1)] loop with its stack of postponed partitions. *)
Fixpoint sort_loop (fuel : nat) (v : list Z) (a : list nat) (pl pr : nat)
    (stack : list segment) (cdepth : Z) : list nat :=
  match fuel with
  | O => a
  | S f =>
      let '(a, stack) :=
        if cdepth <? 0 then (aheapsort v a pl (pr - pl + 1), stack)
        else
          let '(a, pl, pr, stack) :=
            split_loop (List.length a) v a pl pr stack cdepth in
          (insertion_sort v a pl pr, stack) in
      match stack with
      | [] => a
      | (pl', pr', d) :: rest => sort_loop f v a pl' pr' rest d
      end
  end.

(** [npy_get_msb(num) * 2] *)
Definition depth_limit (num : nat) : Z := 2 * Z.log2 (Z.of_nat num).

Definition npy_aquicksort (v : list Z) : list nat :=
  let num := List.length v in
  sort_loop (S num) v (seq 0 num) 0 (num - 1) [] (depth_limit num).

(* ================================================================== *)
(** ** Notions the properties are stated with *)

(** The indexer is a permutation of the positions of the column that puts
    its values in non-decreasing order: what [argsort] promises. *)
Fixpoint sorted_b (l : list Z) : bool :=
  match l with
  | x :: (y :: _) as r => (x <=? y) && sorted_b r
  | _ => true
  end.

Definition is_indexer (n : nat) (idx : list nat) : bool :=
  (List.length idx =? n)%nat
  && forallb (fun i => existsb (Nat.eqb i) idx) (seq 0 n).

Definition argsort_ok (keys : list Z) (idx : list nat) : bool :=
  is_indexer (List.length keys) idx
  && sorted_b (map (fun i => nth i keys 0) idx).

(** Rows with the same identifier come in the order of their index, that
    is in the order they had in the sheet. *)
Fixpoint ties_in_order (out : list Row) : bool :=
  match out with
  | [] => true
  | r :: rest =>
      forallb (fun r' => negb (center_id r =? center_id r')
                         || (index r <? index r')%nat) rest
      && ties_in_order rest
  end.

(** The value of a text of decimal digits. *)
Fixpoint decimal_from (acc : Z) (s : string) : Z :=
  match s with
  | EmptyString => acc
  | String c r => decimal_from (10 * acc + digit_value c) r
  end.

Definition decimal_value (s : string) : Z := decimal_from 0 s.

(** Texts of a date.  [isoformat] is the zero-padded form [YYYY-MM-DD]. *)
Definition digit_char (n : Z) : ascii := ascii_of_N (Z.to_N (48 + n)).

Definition four_digits (y : Z) : string :=
  String (digit_char (y / 1000))
    (String (digit_char (y / 100 mod 10))
       (String (digit_char (y / 10 mod 10))
          (String (digit_char (y mod 10)) EmptyString))).

Definition two_digits (n : Z) : string :=
  String (digit_char (n / 10)) (String (digit_char (n mod 10)) EmptyString).

Definition plain (n : Z) : string :=
  if n <? 10 then String (digit_char n) EmptyString else two_digits n.

Definition isoformat (y m d : Z) : string :=
  (four_digits y ++ "-" ++ two_digits m ++ "-" ++ two_digits d)%string.

(** The ways a month and a day may be written: plain, with a leading zero
    and, for the day, with a leading space. *)
Definition month_texts (m : Z) : list string :=
  if m <? 10 then [plain m; two_digits m] else [plain m].

Definition day_texts (d : Z) : list string :=
  if d <? 10 then [plain d; two_digits d; (" " ++ plain d)%string]
  else [plain d].

Definition date_texts (y m d : Z) : list string :=
  flat_map (fun ms =>
              map (fun ds => (four_digits y ++ "-" ++ ms ++ "-" ++ ds)%string)
                  (day_texts d))
           (month_texts m).

(** Calendar order of dates. *)
Definition date_le (a b : Z * Z * Z) : Prop :=
  let '(y1, m1, d1) := a in
  let '(y2, m2, d2) := b in
  y1 < y2 \/ (y1 = y2 /\ (m1 < m2 \/ (m1 = m2 /\ d1 <= d2))).

(** The date a name stands for, when it is one. *)
Definition date_of (name : string) : option (Z * Z * Z) :=
  match strptime name with inr d => Some d | inl _ => None end.

Definition zero_padded (name : string) : Prop :=
  exists y m d, strptime name = inr (y, m, d) /\ name = isoformat y m d.

(** How a row of the final frame comes from a row of the filtered one. *)
Definition converted (date : string) (r : StrRow) (o : Row) : Prop :=
  index o = s_index r /\ lfl_status o = s_lfl_status r /\ Date o = date
  /\ exists id, s_center_id r = Some id /\ SHORT_setitem id = inr (center_id o).

(* ================================================================== *)
(** ** Sample worlds *)

(** A source folder ["data"] with the given entries, dated folders that all
    list [files], one sheet behind every file, and a destination that opens
    with [werr]. *)
Definition world (names files : list string)
    (sheet : exn + list (Cell * Cell)) (werr : option exn) : Env :=
  {| glob_star := fun dir => if (dir =? "data")%string then names else files;
     read_excel_file := fun _ => sheet;
     open_error := fun _ => werr;
     sys_argv := ["data"; "out.csv"]%string |}.

(** A parser that takes exactly two positional arguments. *)
Definition two_positionals (argv : list string) : exn + (string * string) :=
  match argv with
  | [a; b] => inr (a, b)
  | _ => inl SystemExit
  end.

Definition scenario_sheet : list (Cell * Cell) :=
  [ (Some "12", Some "LFL"); (Some "7", Some "Non-LFL");
    (Some "abc", Some "LFL"); (Some "3", Some "Unknown") ]%string.

Definition scenario : Env :=
  world ["2023-01-01"; "2023-06-15"; "notes"]%string ["gyms.xlsx"]%string
        (inr scenario_sheet) None.

(** The trace of the scenario: one warning, the read, the file written. *)
Definition scenario_trace : list event :=
  [ LogWarning "data" "data/notes";
    ReadExcel "data/2023-06-15/gyms.xlsx";
    ToCsv "out.csv"
      [ mkCsvRow 7 (Some "Non-LFL") "2023-06-15";
        mkCsvRow 12 (Some "LFL") "2023-06-15" ] ]%string.

(** Both cells of the row are present. *)
Definition present (r : StrRow) : bool :=
  match s_center_id r, s_lfl_status r with
  | Some _, Some _ => true
  | _, _ => false
  end.

(** The arguments [main] hands to the parser. *)
Definition arguments (env : Env) (argv : option (list string)) : list string :=
  match argv with Some a => a | None => sys_argv env end.

(** A world whose located file is a damaged archive: the reader raises
    [zipfile.BadZipFile], which is no [ValueError]. *)
Definition damaged_file : Env :=
  world ["2023-06-15"]%string ["gyms.xlsx"]%string
        (inl (OtherException "BadZipFile")) None.

(** A world whose located file is plain text: the reader raises
    [ValueError]. *)
Definition text_file : Env :=
  world ["2023-06-15"]%string ["notes.txt"]%string (inl ValueError) None.

(** A sheet with one identifier above the 16-bit range. *)
Definition big_id : Env :=
  world ["2023-06-15"]%string ["gyms.xlsx"]%string
        (inr [(Some "40000", Some "LFL")]%string) None.

(** A sheet with an identifier beyond the 64-bit range. *)
Definition huge_id : Env :=
  world ["2023-06-15"]%string ["gyms.xlsx"]%string
        (inr [(Some "9223372036854775808", Some "LFL")]%string) None.

(** A sheet with missing cells. *)
Definition missing_cells : Env :=
  world ["2023-06-15"]%string ["gyms.xlsx"]%string
        (inr [(None, Some "LFL"); (Some "7", None); (Some "7", Some "LFL")]%string)
        None.

(** Eighteen rows with the same identifier; only the second has status
    "LFL". *)
Definition ties_sheet : list (Cell * Cell) :=
  (Some "5", Some "Non-LFL")%string
  :: (Some "5", Some "LFL")%string
  :: repeat (Some "5", Some "Non-LFL")%string 16.

Definition ties : Env :=
  world ["2023-06-15"]%string ["gyms.xlsx"]%string (inr ties_sheet) None.

(** The row filler for reading a frame by position. *)
Definition no_row : Row := mkRow 0 0 None EmptyString.

(** The integers [lo], [lo + 1], ..., [lo + n - 1]. *)
Definition Z_range (lo : Z) (n : nat) : list Z :=
  map (fun i => lo + Z.of_nat i) (seq 0 n).

(** Every way of writing a month and a day is read back as that month and
    day, with nothing left over. *)
Definition texts_read_back : bool :=
  forallb (fun m =>
    forallb (fun d =>
      forallb (fun ms =>
        forallb (fun ds =>
          match month_day_groups ("-" ++ ms ++ "-" ++ ds)%string with
          | Some (m', d', EmptyString) => (m' =? m) && (d' =? d)
          | _ => false
          end) (day_texts d)) (month_texts m)) (Z_range 1 31)) (Z_range 1 12).

(* ================================================================== *)
(** ** Further notions and sample worlds *)

Definition is_warning (ev : event) : bool :=
  match ev with LogWarning _ _ => true | _ => false end.

(** The dated folder lists a second file after the first. *)
Definition two_files : Env :=
  world ["2023-06-15"]%string ["gyms.xlsx"; "other.xlsx"]%string
        (inr scenario_sheet) None.

Definition one_file : Env :=
  world ["2023-06-15"]%string ["gyms.xlsx"]%string (inr scenario_sheet) None.

(** The identifier "1" followed by the superscript two (U+00B2). *)
Definition superscript_id : string :=
  String "1" (String (ascii_of_nat 178) EmptyString).

Definition superscript_sheet : Env :=
  world ["2023-06-15"]%string ["gyms.xlsx"]%string
        (inr [(Some superscript_id, Some "LFL"%string)]) None.

(** A sheet none of whose rows passes the filter. *)
Definition rejected_sheet : Env :=
  world ["2023-06-15"]%string ["gyms.xlsx"]%string
        (inr [(Some "abc", Some "LFL"); (Some "3", Some "lfl");
              (None, None)]%string) None.

(** The characters a date-valid name is made of: decimal digits, the
    hyphen and the space. *)
Definition name_char (c : ascii) : bool :=
  is_decimal c || lit 45 c || lit 32 c.

(** A text of one or two such characters. *)
Definition short_text (t : string) : bool :=
  (1 <=? String.length t)%nat && (String.length t <=? 2)%nat
  && all_chars name_char t.

Definition texts_are_short : bool :=
  forallb (fun m => forallb short_text (month_texts m)) (Z_range 1 12)
  && forallb (fun d => forallb short_text (day_texts d)) (Z_range 1 31).

(** The value a position of the column holds. *)
Definition key (v : list Z) (i : nat) : Z := nth i v 0.

(** What one round of the insertion sort does to the sorted part, kept
    here with its last position first: the new position [x] passes every
    position whose value is greater and stops at the first that is not. *)
Fixpoint insert_back (v : list Z) (x : nat) (sorted : list nat) : list nat :=
  match sorted with
  | [] => [x]
  | y :: rest =>
      if key v x <? key v y then y :: insert_back v x rest
      else x :: sorted
  end.

(** By value first, by position among equal values. *)
Definition by_key_then_position (v : list Z) (i j : nat) : Prop :=
  key v i < key v j \/ (key v i = key v j /\ (i < j)%nat).

(* ================================================================== *)
(** ** Notions for the index sort *)

(** The values of the positions [lo], ..., [hi - 1] of the array are in
    non-decreasing order. *)
Definition sorted_on (v : list Z) (a : list nat) (lo hi : nat) : Prop :=
  forall i j : nat, (lo <= i)%nat -> (i <= j)%nat -> (j < hi)%nat ->
  deref v a i <= deref v a j.

(** [a'] is [a] with the entries of the places [lo], ..., [hi] moved among
    these places. *)
Definition shuffled (lo hi : nat) (a a' : list nat) : Prop :=
  List.length a' = List.length a
  /\ Permutation a a'
  /\ (forall k : nat, (k < lo \/ hi < k)%nat -> geti a' k = geti a k)
  /\ (forall i : nat, (lo <= i <= hi)%nat ->
      exists i' : nat, (lo <= i' <= hi)%nat /\ geti a' i = geti a i').

(** From the heap index [l] on, no entry of the heap of size [n] is
    smaller than its children. *)
Definition heap_from (v : list Z) (a : list nat) (base l n : nat) : Prop :=
  forall k c : nat,
    (l <= k)%nat -> (c = 2 * k \/ c = 2 * k + 1)%nat -> (c <= n)%nat ->
    deref v a (heap_pos base c) <= deref v a (heap_pos base k).

(** The places [pl..pr] of a postponed partition. *)
Definition bounds (s : segment) : nat * nat := (fst (fst s), snd (fst s)).

(** No two of the listed ranges of places overlap. *)
Fixpoint apart (P : list (nat * nat)) : Prop :=
  match P with
  | [] => True
  | s :: r =>
      (forall t, In t r -> (snd s < fst t \/ snd t < fst s)%nat) /\ apart r
  end.

Definition pending_size (P : list (nat * nat)) : nat :=
  list_sum (map (fun s => (snd s + 1 - fst s)%nat) P).

(** What holds of the array whenever the loop of [aquicksort_] is about
    to work on a partition: the array is a permutation of the positions,
    the partitions still to sort ([P]: the current one and the stack) are
    ranges of places that do not overlap, and two places that are not in
    the same such partition already hold their values in order. *)
Definition sort_inv (v : list Z) (n : nat) (a : list nat)
    (P : list (nat * nat)) : Prop :=
  List.length a = n
  /\ Permutation (seq 0 n) a
  /\ (forall s, In s P -> (fst s <= snd s < n)%nat)
  /\ apart P
  /\ (forall i j : nat, (i < j < n)%nat ->
      (exists s, In s P /\ (fst s <= i)%nat /\ (j <= snd s)%nat)
      \/ deref v a i <= deref v a j).

(* ================================================================== *)
(** * Properties *)

(** ** The validator and the scenario on sample inputs *)

Example is_date_padded : is_date "2023-06-15" = true.
Proof. reflexivity. Qed.
Example is_date_unpadded : is_date "2023-1-1" = true.
Proof. reflexivity. Qed.
Example is_date_day32 : is_date "2023-01-32" = false.
Proof. reflexivity. Qed.
Example is_date_feb29 : is_date "2023-02-29" = false.
Proof. reflexivity. Qed.
Example is_date_year0 : is_date "0000-01-01" = false.
Proof. reflexivity. Qed.
Example is_date_space_day : is_date "2023-01- 5" = true.
Proof. reflexivity. Qed.

(* ================================================================== *)
(** ** The run, stage by stage *)

Lemma date_names_eq (src : string) (names : list string) :
  date_names (_is_date_in_source src) names
  = (warnings src names, inr (filter is_date names)).
Proof.
  unfold warnings.
  induction names as [|n r IH]; [reflexivity|].
  cbn [date_names filter]. rewrite IH.
  unfold _is_date_in_source.
  change (is_date n)
    with (match strptime n with inr _ => true | inl _ => false end).
  destruct (strptime n); cbn; now rewrite ?app_nil_r.
Qed.

Lemma max_date_name_eq (src : string) (names : list string) :
  max_date_name (_is_date_in_source src) names
  = (warnings src names, py_max (filter is_date names)).
Proof.
  unfold max_date_name. rewrite date_names_eq.
  unfold bind, lift. now rewrite app_nil_r.
Qed.

Lemma process_eq argsort env src dst :
  process argsort env src dst = process_stages argsort env src dst.
Proof.
  unfold process, process_stages.
  rewrite max_date_name_eq.
  destruct (py_max (filter is_date (glob_star env src))) as [e|latest];
    [reflexivity|].
  cbn [bind].
  destruct (item0 _) as [e|file]; cbn [lift bind];
    [now rewrite app_nil_r|].
  unfold read_excel, to_csv.
  destruct (read_excel_file env file) as [e|cells]; cbn.
  - destruct (is_ValueError e); cbn; now rewrite ?app_nil_r.
  - destruct (transform argsort (frame_of_sheet cells) latest) as [e|out]; cbn.
    + now rewrite ?app_nil_r.
    + destruct (open_error env dst); cbn; now rewrite ?app_nil_r.
Qed.

(* ================================================================== *)
(** ** The row filter *)

Lemma getitem_mask_filter (df : list StrRow) :
  row_filter df = filter passes df.
Proof.
  unfold row_filter.
  induction df as [|r df IH]; [reflexivity|].
  cbn [map series_str_isdigit series_isin series_and getitem_mask filter].
  fold (series_str_isdigit (map s_center_id df)).
  fold (series_isin ["LFL"; "Non-LFL"]%string (map s_lfl_status df)).
  rewrite IH. unfold passes.
  destruct (s_center_id r) as [id|], (s_lfl_status r) as [st|]; cbn;
    try reflexivity.
  - rewrite orb_false_r.
    destruct ((st =? "LFL") || (st =? "Non-LFL"))%string; cbn.
    + destruct (str_isdigit id); reflexivity.
    + now rewrite andb_false_r.
  - rewrite orb_false_r.
    destruct ((st =? "LFL") || (st =? "Non-LFL"))%string; reflexivity.
Qed.

Lemma passes_inv (r : StrRow) :
  passes r = true ->
  exists id st, s_center_id r = Some id /\ s_lfl_status r = Some st
                /\ str_isdigit id = true
                /\ (st = "LFL" \/ st = "Non-LFL")%string.
Proof.
  unfold passes.
  destruct (s_center_id r) as [id|]; [|discriminate].
  destruct (s_lfl_status r) as [st|]; [|discriminate].
  intros H. apply andb_true_iff in H as [Hd Hs].
  exists id, st. repeat split; trivial.
  apply orb_true_iff in Hs as [Hs|Hs]; apply String.eqb_eq in Hs; auto.
Qed.

Lemma frame_from_In (cells : list (Cell * Cell)) :
  forall i r, In r (frame_from i cells) ->
  (i <= s_index r)%nat
  /\ nth_error cells (s_index r - i) = Some (s_center_id r, s_lfl_status r).
Proof.
  induction cells as [|[g l] cells IH]; intros i r H; [destruct H|].
  destruct H as [<-|H]; cbn [s_index s_center_id s_lfl_status].
  - split; [lia|]. now rewrite Nat.sub_diag.
  - apply IH in H as [Hle Hn]. split; [lia|].
    replace (s_index r - i)%nat with (S (s_index r - S i)) by lia.
    exact Hn.
Qed.

Lemma frame_of_sheet_In (cells : list (Cell * Cell)) (r : StrRow) :
  In r (frame_of_sheet cells) ->
  nth_error cells (s_index r) = Some (s_center_id r, s_lfl_status r).
Proof.
  intros H. apply frame_from_In in H as [_ H].
  now rewrite Nat.sub_0_r in H.
Qed.

(* ================================================================== *)
(** ** The conversion of the identifier column *)

Lemma assign_converted (date : string) (df : list StrRow) :
  forall out, assign df date = inr out -> Forall2 (converted date) df out.
Proof.
  unfold assign.
  induction df as [|r df IH]; intros out H; cbn in H.
  - injection H as <-. constructor.
  - destruct (s_center_id r) as [id|] eqn:Hid; [|discriminate].
    destruct (SHORT_setitem id) as [e|v] eqn:Hv; [discriminate|].
    destruct (astype_int16 (map s_center_id df)) as [e|vs]; [discriminate|].
    injection H as <-. cbn [with_columns].
    constructor.
    + unfold converted; cbn. repeat split; trivial. now exists id.
    + now apply IH.
Qed.

Lemma assign_fails (date : string) (df : list StrRow) (r : StrRow)
    (id : string) (e : exn) :
  In r df -> s_center_id r = Some id -> SHORT_setitem id = inl e ->
  exists e', assign df date = inl e'.
Proof.
  unfold assign. intros Hin Hid He.
  assert (H : exists e', astype_int16 (map s_center_id df) = inl e').
  { induction df as [|r' df IH]; [destruct Hin|].
    cbn [map astype_int16].
    destruct (s_center_id r') as [id'|] eqn:Hid'; [|now eexists].
    destruct (SHORT_setitem id') as [e'|v] eqn:Hv; [now eexists|].
    destruct Hin as [->|Hin]; [congruence|].
    destruct (IH Hin) as [e' ->]. now eexists. }
  destruct H as [e' ->]. now exists e'.
Qed.

Lemma take_incl {A} (df : list A) :
  forall idx out, take df idx = inr out -> incl out df.
Proof.
  induction idx as [|i idx IH]; intros out H; cbn in H.
  - injection H as <-. intros x [].
  - destruct (nth_error df i) as [x|] eqn:Hx; [|discriminate].
    destruct (take df idx) as [e|xs]; [discriminate|].
    injection H as <-. intros y [<-|Hy].
    + eapply nth_error_In; eauto.
    + now apply (IH xs).
Qed.

Lemma take_error {A} (df : list A) (idx : list nat) (e : exn) :
  take df idx = inl e -> e = IndexError.
Proof.
  revert e. induction idx as [|i idx IH]; intros e H; cbn in H;
    [discriminate|].
  destruct (nth_error df i); [|congruence].
  destruct (take df idx) as [e'|xs]; [|discriminate].
  injection H as <-. now apply IH.
Qed.

(* ================================================================== *)
(** ** [int] and the 16-bit store on texts that pass [str.isdigit] *)

Ltac bool_to_Z :=
  repeat match goal with
         | H : _ && _ = true |- _ => apply andb_true_iff in H as [? ?]
         | H : _ || _ = true |- _ => apply orb_true_iff in H as [?|?]
         | H : (_ <=? _) = true |- _ => apply Z.leb_le in H
         | H : (_ =? _) = true |- _ => apply Z.eqb_eq in H
         end.

Lemma char_isdigit_plain (c : ascii) :
  char_isdigit c = true ->
  int_space c = false /\ (code c =? 43) = false /\ (code c =? 45) = false
  /\ (code c =? 95) = false.
Proof.
  unfold char_isdigit, is_decimal, int_space, in_range. intros H.
  bool_to_Z;
    (repeat split;
     repeat (apply orb_false_iff; split);
     try (apply andb_false_iff;
          destruct (Z.leb_spec 9 (code c)); [right|left; reflexivity]);
     first [apply Z.eqb_neq | apply Z.leb_gt]; lia).
Qed.

Lemma is_decimal_isdigit (c : ascii) :
  is_decimal c = true -> char_isdigit c = true.
Proof. unfold char_isdigit. now intros ->. Qed.

Lemma lstrip_id (l : list ascii) :
  match l with c :: _ => int_space c = false | [] => True end ->
  lstrip l = l.
Proof. destruct l as [|c r]; [reflexivity|]. cbn. now intros ->. Qed.

Lemma strip_isdigit (s : string) :
  all_chars char_isdigit s = true ->
  strip (list_ascii_of_string s) = list_ascii_of_string s.
Proof.
  intros H.
  assert (F : Forall (fun c => int_space c = false) (list_ascii_of_string s)).
  { induction s as [|c r IH]; cbn; [constructor|].
    cbn in H. apply andb_true_iff in H as [Hc Hr].
    constructor; [now apply char_isdigit_plain | now apply IH]. }
  unfold strip. rewrite (lstrip_id (list_ascii_of_string s)).
  - rewrite lstrip_id; [apply rev_involutive|].
    apply Forall_rev in F.
    destruct (rev (list_ascii_of_string s)); [exact I|].
    now inversion F.
  - destruct F; trivial.
Qed.

Lemma digits_from_isdigit (s : string) :
  all_chars char_isdigit s = true ->
  forall acc n b,
  digits_from (list_ascii_of_string s) acc n b
  = if all_chars is_decimal s
    then match s with
         | EmptyString => if b then Some (acc, n) else None
         | String _ _ =>
             Some (decimal_from acc s, n + Z.of_nat (String.length s))
         end
    else None.
Proof.
  induction s as [|c r IH]; intros H acc n b; [reflexivity|].
  cbn in H. apply andb_true_iff in H as [Hc Hr].
  cbn [list_ascii_of_string digits_from all_chars].
  destruct (is_decimal c) eqn:Hd; cbn [andb].
  - rewrite (IH Hr). destruct (all_chars is_decimal r); [|reflexivity].
    destruct r as [|c' r'].
    + reflexivity.
    + cbn [decimal_from String.length].
      apply f_equal, pair_equal_spec. split; [reflexivity | lia].
  - apply char_isdigit_plain in Hc as (_ & _ & _ & ->). reflexivity.
Qed.

Lemma py_int_isdigit (s : string) :
  str_isdigit s = true ->
  py_int s
  = if all_chars is_decimal s
    then if max_str_digits <? Z.of_nat (String.length s) then inl ValueError
         else inr (decimal_value s)
    else inl ValueError.
Proof.
  unfold str_isdigit, py_int. destruct s as [|c r]; [discriminate|].
  intros H. rewrite (strip_isdigit _ H).
  pose proof (digits_from_isdigit _ H 0 0 false) as D.
  cbn [list_ascii_of_string] in *.
  cbn [all_chars] in H. apply andb_true_iff in H as [Hc _].
  apply char_isdigit_plain in Hc as (_ & -> & -> & _).
  rewrite D. destruct (all_chars is_decimal (String c r)); [|reflexivity].
  unfold decimal_value. rewrite Z.add_0_l.
  destruct (max_str_digits <? _); [reflexivity|]. f_equal. lia.
Qed.

Lemma decimal_from_nonneg (s : string) :
  all_chars is_decimal s = true ->
  forall acc, 0 <= acc -> acc <= decimal_from acc s.
Proof.
  induction s as [|c r IH]; intros H acc Hacc; cbn [decimal_from]; [lia|].
  cbn [all_chars] in H. apply andb_true_iff in H as [Hc Hr].
  unfold is_decimal, in_range in Hc. bool_to_Z.
  specialize (IH Hr (10 * acc + digit_value c)).
  unfold digit_value in *. lia.
Qed.

Lemma decimal_value_nonneg (s : string) :
  all_chars is_decimal s = true -> 0 <= decimal_value s.
Proof. intros H. now apply (decimal_from_nonneg s H 0). Qed.

(** The store of a text that passed [str.isdigit]. *)
Lemma SHORT_setitem_isdigit (s : string) :
  str_isdigit s = true ->
  SHORT_setitem s
  = if all_chars is_decimal s
    then if max_str_digits <? Z.of_nat (String.length s) then inl ValueError
         else if decimal_value s <=? LONG_MAX
              then inr (to_int16 (decimal_value s))
              else inl OverflowError
    else inl ValueError.
Proof.
  intros H. unfold SHORT_setitem. rewrite (py_int_isdigit _ H).
  destruct (all_chars is_decimal s) eqn:Hd; [|reflexivity].
  destruct (max_str_digits <? _); [reflexivity|].
  pose proof (decimal_value_nonneg _ Hd) as Hn.
  replace (LONG_MIN <=? decimal_value s) with true; [reflexivity|].
  symmetry. apply Z.leb_le. unfold LONG_MIN. lia.
Qed.

Lemma to_int16_range (n : Z) : INT16_MIN <= to_int16 n <= INT16_MAX.
Proof.
  unfold to_int16, INT16_MIN, INT16_MAX.
  pose proof (Z.mod_pos_bound (n + 32768) 65536 ltac:(lia)). lia.
Qed.

Lemma to_int16_small (n : Z) :
  INT16_MIN <= n <= INT16_MAX -> to_int16 n = n.
Proof.
  unfold to_int16, INT16_MIN, INT16_MAX. intros H.
  rewrite Z.mod_small; lia.
Qed.

Lemma SHORT_setitem_range (s : string) (v : Z) :
  SHORT_setitem s = inr v -> INT16_MIN <= v <= INT16_MAX.
Proof.
  unfold SHORT_setitem. destruct (py_int s) as [e|n]; [discriminate|].
  destruct (_ && _); [|discriminate].
  intros H. injection H as <-. apply to_int16_range.
Qed.

(* ================================================================== *)
(** ** Successful runs *)

Lemma process_ok_inv argsort env src dst tr :
  process argsort env src dst = (tr, inr tt) ->
  exists latest file cells out,
    py_max (filter is_date (glob_star env src)) = inr latest
    /\ item0 (map (path_join (path_join src latest))
                  (glob_star env (path_join src latest))) = inr file
    /\ read_excel_file env file = inr cells
    /\ transform argsort (frame_of_sheet cells) latest = inr out
    /\ open_error env dst = None
    /\ tr = warnings src (glob_star env src)
            ++ [ReadExcel file; ToCsv dst (map csv_row out)].
Proof.
  rewrite process_eq. unfold process_stages. cbv zeta.
  destruct (py_max _) as [e|latest] eqn:H1; [discriminate|].
  destruct (item0 _) as [e|file] eqn:H2; [discriminate|].
  destruct (read_excel_file env file) as [e|cells] eqn:H3; [discriminate|].
  destruct (transform _ _ _) as [e|out] eqn:H4; [discriminate|].
  destruct (open_error env dst) eqn:H5; [discriminate|].
  intros H. injection H as <-.
  exists latest, file, cells, out. repeat split; assumption || reflexivity.
Qed.

Lemma Forall2_In_r {A B} (R : A -> B -> Prop) (l : list A) (l' : list B) :
  Forall2 R l l' -> forall y, In y l' -> exists x, In x l /\ R x y.
Proof.
  induction 1 as [|x y l l' HR _ IH]; intros z Hz; [destruct Hz|].
  destruct Hz as [<-|Hz].
  - exists x. split; [now left | exact HR].
  - destruct (IH z Hz) as (x' & Hx' & HR'). exists x'. split; [now right | exact HR'].
Qed.

(** Every row of the final frame is the conversion of a row that passed
    the filter. *)
Lemma transform_rows argsort (df : list StrRow) (latest : string)
    (out : list Row) :
  transform argsort df latest = inr out ->
  forall o, In o out ->
  exists r, In r df /\ passes r = true /\ converted latest r o.
Proof.
  unfold transform, sort_values.
  destruct (assign (row_filter df) latest) as [e|df'] eqn:Ha; [discriminate|].
  intros Ht o Ho.
  apply take_incl in Ht. apply Ht in Ho.
  apply assign_converted in Ha.
  destruct (Forall2_In_r _ _ _ Ha o Ho) as (r & Hr & Hc).
  rewrite getitem_mask_filter in Hr. apply filter_In in Hr as [Hr Hp].
  now exists r.
Qed.

Lemma in_trace_ToCsv src names file dst rows p rows' :
  In (ToCsv p rows')
     (warnings src names ++ [ReadExcel file; ToCsv dst rows])
  -> p = dst /\ rows' = rows.
Proof.
  intros H. apply in_app_or in H as [H|H].
  - unfold warnings in H. apply in_map_iff in H as (n & Hn & _). discriminate.
  - destruct H as [H|[H|[]]]; [discriminate|]. injection H as <- <-. now split.
Qed.

Example scenario_run :
  process npy_aquicksort scenario "data" "out.csv" = (scenario_trace, inr tt).
Proof. vm_compute. reflexivity. Qed.

Example rejected_identifiers :
  map str_isdigit [""; "-5"; "+5"; "1.5"; " 7"; "7 "; "abc"; "007"]%string
  = [false; false; false; false; false; false; false; true].
Proof. reflexivity. Qed.

Lemma converted_decimal (date : string) (r : StrRow) (o : Row) :
  passes r = true -> converted date r o ->
  exists id st,
    s_center_id r = Some id /\ s_lfl_status r = Some st
    /\ id <> EmptyString /\ all_chars is_decimal id = true
    /\ (st = "LFL" \/ st = "Non-LFL")%string
    /\ center_id o = to_int16 (decimal_value id).
Proof.
  intros Hp (_ & _ & _ & id' & Hid' & Hv).
  apply passes_inv in Hp as (id & st & Hid & Hst & Hd & Hs).
  rewrite Hid in Hid'. injection Hid' as <-.
  rewrite (SHORT_setitem_isdigit _ Hd) in Hv.
  exists id, st. repeat split; trivial.
  - intros ->. discriminate.
  - destruct (all_chars is_decimal id); [reflexivity | discriminate].
  - destruct (all_chars is_decimal id); [|discriminate].
    destruct (max_str_digits <? _); [discriminate|].
    destruct (decimal_value id <=? LONG_MAX); [|discriminate].
    now injection Hv.
Qed.

(** C1: a row reaches the output only if its identifier text is a
    non-empty text of decimal digit characters and its status text is
    exactly "LFL" or exactly "Non-LFL".  In a run that ends well the frame
    written is the one the transform returns on the sheet that was read;
    each of its rows is, field by field, the conversion of the sheet row
    at its index, and that sheet row passes both tests; so every line of
    the file written is the line of such a sheet row, and a row failing
    either test never appears. *)
Theorem output_rows_pass_both_filters argsort env src dst tr :
  process argsort env src dst = (tr, inr tt) ->
  exists latest file cells out,
    py_max (filter is_date (glob_star env src)) = inr latest
    /\ read_excel_file env file = inr cells
    /\ transform argsort (frame_of_sheet cells) latest = inr out
    /\ tr = warnings src (glob_star env src)
            ++ [ReadExcel file; ToCsv dst (map csv_row out)]
    /\ (forall o, In o out ->
        exists id st,
          nth_error cells (index o) = Some (Some id, Some st)
          /\ id <> EmptyString
          /\ all_chars is_decimal id = true
          /\ (st = "LFL" \/ st = "Non-LFL")%string
          /\ o = mkRow (index o) (to_int16 (decimal_value id)) (Some st)
                       latest)
    /\ (forall p rows line,
        In (ToCsv p rows) tr -> In line rows ->
        exists i id st,
          nth_error cells i = Some (Some id, Some st)
          /\ id <> EmptyString
          /\ all_chars is_decimal id = true
          /\ (st = "LFL" \/ st = "Non-LFL")%string
          /\ line = mkCsvRow (to_int16 (decimal_value id)) (Some st) latest).
Proof.
  intros H.
  apply process_ok_inv in H
    as (latest & file & cells & out & Hmax & _ & Hread & Ht & _ & ->).
  assert (Hrows : forall o, In o out ->
            exists id st,
              nth_error cells (index o) = Some (Some id, Some st)
              /\ id <> EmptyString
              /\ all_chars is_decimal id = true
              /\ (st = "LFL" \/ st = "Non-LFL")%string
              /\ o = mkRow (index o) (to_int16 (decimal_value id)) (Some st)
                           latest).
  { intros o Ho.
    destruct (transform_rows _ _ _ _ Ht o Ho) as (r & Hr & Hp & Hc).
    destruct (converted_decimal _ _ _ Hp Hc)
      as (id & st & Hid & Hst & Hne & Hd & Hs & Hv).
    exists id, st. repeat split; trivial.
    - apply frame_of_sheet_In in Hr.
      destruct Hc as (-> & _). now rewrite Hr, Hid, Hst.
    - destruct Hc as (_ & Hl & HD & _). destruct o as [i c l d].
      cbn in *. now rewrite Hv, Hl, Hst, HD. }
  exists latest, file, cells, out. repeat split; trivial.
  intros p rows line Hin Hline.
  apply in_trace_ToCsv in Hin as [_ ->].
  apply in_map_iff in Hline as (o & <- & Ho).
  destruct (Hrows o Ho) as (id & st & Hn & Hne & Hd & Hs & Ho').
  exists (index o), id, st. repeat split; trivial.
  rewrite Ho' at 1. reflexivity.
Qed.

Lemma output_rows_pass_both_filters_witness :
  process npy_aquicksort scenario "data" "out.csv" = (scenario_trace, inr tt)
  /\ exists latest file cells out,
       py_max (filter is_date (glob_star scenario "data")) = inr latest
       /\ read_excel_file scenario file = inr cells
       /\ transform npy_aquicksort (frame_of_sheet cells) latest = inr out
       /\ scenario_trace
          = warnings "data" (glob_star scenario "data")
            ++ [ReadExcel file; ToCsv "out.csv" (map csv_row out)]
       /\ (forall o, In o out ->
           exists id st,
             nth_error cells (index o) = Some (Some id, Some st)
             /\ id <> EmptyString
             /\ all_chars is_decimal id = true
             /\ (st = "LFL" \/ st = "Non-LFL")%string
             /\ o = mkRow (index o) (to_int16 (decimal_value id)) (Some st)
                          latest)
       /\ (forall p rows line,
           In (ToCsv p rows) scenario_trace -> In line rows ->
           exists i id st,
             nth_error cells i = Some (Some id, Some st)
             /\ id <> EmptyString
             /\ all_chars is_decimal id = true
             /\ (st = "LFL" \/ st = "Non-LFL")%string
             /\ line = mkCsvRow (to_int16 (decimal_value id)) (Some st)
                                latest).
Proof.
  split; [vm_compute; reflexivity|].
  apply (output_rows_pass_both_filters npy_aquicksort scenario "data" "out.csv").
  vm_compute. reflexivity.
Defined.

(** C6: in every run that writes an output, each row carries the selected
    folder name as its Date, a center_id within the signed 16-bit range
    and an lfl_status that is one of the two accepted literals. *)
Theorem output_invariant argsort env src dst tr :
  process argsort env src dst = (tr, inr tt) ->
  exists latest,
    py_max (filter is_date (glob_star env src)) = inr latest
    /\ (exists rows, In (ToCsv dst rows) tr)
    /\ forall p rows, In (ToCsv p rows) tr ->
       forall row, In row rows ->
         csv_Date row = latest
         /\ INT16_MIN <= csv_center_id row <= INT16_MAX
         /\ (csv_lfl_status row = Some "LFL"%string
             \/ csv_lfl_status row = Some "Non-LFL"%string).
Proof.
  intros H.
  apply process_ok_inv in H
    as (latest & file & cells & out & Hmax & _ & _ & Ht & _ & ->).
  exists latest. split; [exact Hmax|]. split.
  - exists (map csv_row out). apply in_or_app. right. right. now left.
  - intros p rows Hin row Hrow.
    apply in_trace_ToCsv in Hin as [-> ->].
    apply in_map_iff in Hrow as (o & <- & Ho).
    destruct (transform_rows _ _ _ _ Ht o Ho) as (r & Hr & Hp & Hc).
    destruct (converted_decimal _ _ _ Hp Hc)
      as (id & st & Hid & Hst & _ & _ & Hs & Hv).
    destruct Hc as (_ & Hl & Hdate & _).
    unfold csv_row; cbn. repeat split.
    + exact Hdate.
    + rewrite Hv. apply to_int16_range.
    + rewrite Hv. apply to_int16_range.
    + rewrite Hl, Hst. destruct Hs as [->| ->]; auto.
Qed.

Lemma output_invariant_witness :
  process npy_aquicksort scenario "data" "out.csv" = (scenario_trace, inr tt)
  /\ exists latest,
       py_max (filter is_date (glob_star scenario "data")) = inr latest
       /\ (exists rows, In (ToCsv "out.csv" rows) scenario_trace)
       /\ forall p rows, In (ToCsv p rows) scenario_trace ->
          forall row, In row rows ->
            csv_Date row = latest
            /\ INT16_MIN <= csv_center_id row <= INT16_MAX
            /\ (csv_lfl_status row = Some "LFL"%string
                \/ csv_lfl_status row = Some "Non-LFL"%string).
Proof.
  split; [vm_compute; reflexivity|].
  apply (output_invariant npy_aquicksort scenario "data" "out.csv").
  vm_compute. reflexivity.
Defined.

(* ================================================================== *)
(** ** Failing runs and the exit code *)

Lemma main_eq argsort parse_args env argv :
  main argsort parse_args env argv
  = match parse_args (arguments env argv) with
    | inl e => ([], inl e)
    | inr (src, dst) =>
        match process argsort env src dst with
        | (tr, inr _) => (tr, inr 0)
        | (tr, inl e) =>
            if is_DataProcessingError e
            then (tr ++ [LogException e], inr 1)
            else (tr, inl e)
        end
    end.
Proof.
  unfold main, arguments.
  destruct (parse_args _) as [e|[src dst]]; [reflexivity|].
  cbn [lift bind fst snd app].
  destruct (process argsort env src dst) as [tr [e|[]]]; cbn.
  - destruct (is_DataProcessingError e); reflexivity.
  - now rewrite app_nil_r.
Qed.

Lemma SHORT_setitem_error (s : string) (e : exn) :
  SHORT_setitem s = inl e -> e = ValueError \/ e = OverflowError.
Proof.
  unfold SHORT_setitem, py_int.
  destruct (match strip (list_ascii_of_string s) with
            | [] => _ | _ :: _ => _ end) as [sign digits].
  destruct (digits_from digits 0 0 false) as [[v n]|]; [|left; congruence].
  destruct (max_str_digits <? n); [left; congruence|].
  destruct (_ && _); [discriminate | right; congruence].
Qed.

Lemma astype_int16_error (col : list Cell) (e : exn) :
  astype_int16 col = inl e ->
  e = TypeError \/ e = ValueError \/ e = OverflowError.
Proof.
  induction col as [|c r IH]; cbn; [discriminate|].
  destruct c as [s|]; [|left; congruence].
  destruct (SHORT_setitem s) as [e'|v] eqn:Hs.
  - intros H. injection H as <-. right. now apply SHORT_setitem_error in Hs.
  - destruct (astype_int16 r) as [e'|vs]; [|discriminate].
    intros H. injection H as <-. now apply IH.
Qed.

(** The transform raises built-in exceptions only. *)
Lemma transform_error argsort (df : list StrRow) (latest : string) (e : exn) :
  transform argsort df latest = inl e -> is_DataProcessingError e = false.
Proof.
  unfold transform, sort_values, assign.
  destruct (astype_int16 _) as [e'|ids] eqn:Ha.
  - intros H. injection H as <-.
    apply astype_int16_error in Ha as [->|[->| ->]]; reflexivity.
  - intros H. apply take_error in H as ->. reflexivity.
Qed.

Lemma no_ToCsv_in_warnings src names file p rows :
  ~ In (ToCsv p rows) (warnings src names ++ [ReadExcel file]).
Proof.
  intros H. apply in_app_or in H as [H|[H|[]]]; [|discriminate].
  unfold warnings in H. apply in_map_iff in H as (n & Hn & _). discriminate.
Qed.

Lemma no_ReadExcel_in_warnings src names path :
  ~ In (ReadExcel path) (warnings src names).
Proof.
  unfold warnings. intros H.
  apply in_map_iff in H as (n & Hn & _). discriminate.
Qed.

(** C7: [main] returns 0 when processing succeeds; it returns 1 exactly
    when [process] raises DataProcessingError, which it logs; every other
    failure escapes [main] as the exception it is: no date-valid folder
    name, an empty dated folder, a failing conversion, an error on
    writing. *)
Theorem main_exit_code argsort parse_args env argv src dst :
  parse_args (arguments env argv) = inr (src, dst) ->
  let run := main argsort parse_args env argv in
  let w := warnings src (glob_star env src) in
  (forall tr, process argsort env src dst = (tr, inr tt) -> run = (tr, inr 0))
  /\ (forall tr msg cause,
        process argsort env src dst = (tr, inl (DataProcessingError msg cause))
        -> run = (tr ++ [LogException (DataProcessingError msg cause)], inr 1))
  /\ (forall tr e,
        process argsort env src dst = (tr, inl e)
        -> is_DataProcessingError e = false -> run = (tr, inl e))
  /\ (snd run = inr 1 <->
      exists msg cause,
        snd (process argsort env src dst)
        = inl (DataProcessingError msg cause))
  /\ (filter is_date (glob_star env src) = [] -> run = (w, inl ValueError))
  /\ (forall latest,
        py_max (filter is_date (glob_star env src)) = inr latest ->
        glob_star env (path_join src latest) = [] ->
        run = (w, inl IndexError))
  /\ (forall tr e,
        process argsort env src dst = (tr, inl e) ->
        (exists file cells latest,
           transform argsort (frame_of_sheet cells) latest = inl e
           /\ tr = w ++ [ReadExcel file]) ->
        run = (tr, inl e))
  /\ (forall tr,
        process argsort env src dst = (tr, inl OSError) ->
        run = (tr, inl OSError)).
Proof.
  intros Hargs run w. subst run w. rewrite main_eq, Hargs.
  repeat split.
  - intros tr ->. reflexivity.
  - intros tr msg cause ->. reflexivity.
  - intros tr e -> ->. reflexivity.
  - destruct (process argsort env src dst) as [tr [e|[]]]; cbn.
    + destruct e; cbn; try discriminate. intros _. now eexists _, _.
    + discriminate.
  - intros (msg & cause & H).
    destruct (process argsort env src dst) as [tr [e|[]]]; cbn in *.
    + injection H as ->. reflexivity.
    + discriminate.
  - intros Hnone. rewrite process_eq. unfold process_stages.
    rewrite Hnone. reflexivity.
  - intros latest Hmax Hempty. rewrite process_eq. unfold process_stages.
    rewrite Hmax. cbv zeta. rewrite Hempty. reflexivity.
  - intros tr e -> (file & cells & latest & Ht & _).
    now rewrite (transform_error _ _ _ _ Ht).
  - intros tr ->. reflexivity.
Qed.

Lemma main_exit_code_witness :
  two_positionals (arguments scenario None) = inr ("data", "out.csv")%string
  /\ main npy_aquicksort two_positionals scenario None
     = (scenario_trace, inr 0).
Proof.
  split; [reflexivity|].
  apply (main_exit_code npy_aquicksort two_positionals scenario None
           "data" "out.csv" eq_refl).
  vm_compute. reflexivity.
Defined.

(** C9: when the selected dated folder has no entries, [process] fails
    with an IndexError that nothing catches, before any spreadsheet is
    read, and the error escapes [main] too. *)
Theorem empty_dated_folder_is_fatal argsort parse_args env argv src dst latest :
  py_max (filter is_date (glob_star env src)) = inr latest ->
  glob_star env (path_join src latest) = [] ->
  let tr := fst (process argsort env src dst) in
  process argsort env src dst = (tr, inl IndexError)
  /\ (forall path, ~ In (ReadExcel path) tr)
  /\ (forall p rows, ~ In (ToCsv p rows) tr)
  /\ (parse_args (arguments env argv) = inr (src, dst) ->
      main argsort parse_args env argv = (tr, inl IndexError)).
Proof.
  intros Hmax Hempty tr. subst tr.
  assert (Hp : process argsort env src dst
               = (warnings src (glob_star env src), inl IndexError)).
  { rewrite process_eq. unfold process_stages.
    rewrite Hmax. cbv zeta. rewrite Hempty. reflexivity. }
  rewrite Hp. cbn [fst]. repeat split.
  - intros path. apply no_ReadExcel_in_warnings.
  - intros p rows H. unfold warnings in H.
    apply in_map_iff in H as (n & Hn & _). discriminate.
  - intros Hargs. rewrite main_eq, Hargs, Hp. reflexivity.
Qed.

Lemma empty_dated_folder_is_fatal_witness :
  let env := world ["2023-06-15"; "notes"]%string [] (inr scenario_sheet) None in
  py_max (filter is_date (glob_star env "data")) = inr "2023-06-15"%string
  /\ glob_star env (path_join "data" "2023-06-15") = []
  /\ process npy_aquicksort env "data" "out.csv"
     = ([LogWarning "data" "data/notes"], inl IndexError).
Proof.
  intros env. split; [reflexivity|]. split; [reflexivity|].
  apply (empty_dated_folder_is_fatal npy_aquicksort two_positionals env None
           "data" "out.csv" "2023-06-15" eq_refl eq_refl).
Defined.

(* ================================================================== *)
(** ** The spreadsheet read *)

(** C8 (as amended): when reading the located file raises a ValueError,
    [process] raises DataProcessingError with that exception as its cause
    and the message "<file path> is not an excel file"; a read that fails
    with any other exception, and a failure of the transform or of the
    write, is raised unchanged. *)
Theorem read_failure_is_wrapped_only_for_ValueError
    argsort env src dst latest file :
  py_max (filter is_date (glob_star env src)) = inr latest ->
  item0 (map (path_join (path_join src latest))
             (glob_star env (path_join src latest))) = inr file ->
  let tr := warnings src (glob_star env src) ++ [ReadExcel file] in
  (forall e, read_excel_file env file = inl e -> is_ValueError e = true ->
     process argsort env src dst
     = (tr, inl (DataProcessingError
                   (file ++ " is not an excel file")%string e)))
  /\ (forall e, read_excel_file env file = inl e -> is_ValueError e = false ->
        process argsort env src dst = (tr, inl e))
  /\ (forall cells e, read_excel_file env file = inr cells ->
        transform argsort (frame_of_sheet cells) latest = inl e ->
        process argsort env src dst = (tr, inl e))
  /\ (forall cells out e, read_excel_file env file = inr cells ->
        transform argsort (frame_of_sheet cells) latest = inr out ->
        open_error env dst = Some e ->
        process argsort env src dst = (tr, inl e)).
Proof.
  intros Hmax Hfile tr. subst tr.
  rewrite process_eq. unfold process_stages. rewrite Hmax. cbv zeta.
  rewrite Hfile. repeat split.
  - intros e -> ->. reflexivity.
  - intros e -> ->. reflexivity.
  - intros cells e -> ->. reflexivity.
  - intros cells out e -> -> ->. reflexivity.
Qed.

Lemma read_failure_is_wrapped_only_for_ValueError_witness :
  py_max (filter is_date (glob_star text_file "data"))
  = inr "2023-06-15"%string
  /\ item0 (map (path_join (path_join "data" "2023-06-15"))
                (glob_star text_file (path_join "data" "2023-06-15")))
     = inr "data/2023-06-15/notes.txt"%string
  /\ process npy_aquicksort text_file "data" "out.csv"
     = ([ReadExcel "data/2023-06-15/notes.txt"],
        inl (DataProcessingError
               "data/2023-06-15/notes.txt is not an excel file" ValueError)).
Proof.
  split; [reflexivity|]. split; [reflexivity|].
  destruct (read_failure_is_wrapped_only_for_ValueError npy_aquicksort
              text_file "data" "out.csv" "2023-06-15"
              "data/2023-06-15/notes.txt" eq_refl eq_refl) as [H _].
  exact (H ValueError eq_refl eq_refl).
Defined.

(** C8, the claim as stated fails: a located file that cannot be parsed
    because the archive is damaged makes the reader raise an exception
    that is no ValueError, and [process] lets it through instead of
    raising DataProcessingError. *)
Lemma unparseable_file_not_wrapped :
  read_excel_file damaged_file "data/2023-06-15/gyms.xlsx"
  = inl (OtherException "BadZipFile")
  /\ process npy_aquicksort damaged_file "data" "out.csv"
     = ([ReadExcel "data/2023-06-15/gyms.xlsx"],
        inl (OtherException "BadZipFile"))
  /\ is_DataProcessingError (OtherException "BadZipFile") = false.
Proof. repeat split. Qed.

(* ================================================================== *)
(** ** Missing cells *)

Lemma filter_passes_present (df : list StrRow) :
  filter passes (filter present df) = filter passes df.
Proof.
  induction df as [|r df IH]; [reflexivity|].
  cbn [filter]. destruct (present r) eqn:Hp; cbn [filter].
  - now rewrite IH.
  - rewrite IH. unfold passes, present in *.
    destruct (s_center_id r), (s_lfl_status r); try discriminate; reflexivity.
Qed.

(** C10 (as amended): a row with a missing identifier or a missing status
    does not fail the run; it never passes the filter and is dropped like
    any other rejected row, so the transform gives what it gives on the
    frame without such rows. *)
Theorem missing_cells_are_dropped argsort (excel_df : list StrRow)
    (latest : string) :
  (forall r, s_center_id r = None \/ s_lfl_status r = None ->
             passes r = false)
  /\ row_filter excel_df = row_filter (filter present excel_df)
  /\ transform argsort excel_df latest
     = transform argsort (filter present excel_df) latest.
Proof.
  repeat split.
  - intros r [H|H]; unfold passes; rewrite H; [reflexivity|].
    now destruct (s_center_id r).
  - now rewrite !getitem_mask_filter, filter_passes_present.
  - unfold transform.
    now rewrite !getitem_mask_filter, filter_passes_present.
Qed.

(** C10, the claim as stated fails: a sheet with a missing identifier in
    one row and a missing status in another is processed without an
    error, and the one complete row is written. *)
Lemma missing_cell_does_not_fail_the_run :
  process npy_aquicksort missing_cells "data" "out.csv"
  = ([ReadExcel "data/2023-06-15/gyms.xlsx";
      ToCsv "out.csv" [mkCsvRow 7 (Some "LFL") "2023-06-15"]]%string,
     inr tt).
Proof. vm_compute. reflexivity. Qed.

(* ================================================================== *)
(** ** The sort *)

Lemma sorted_b_Sorted (l : list Z) : sorted_b l = true -> Sorted Z.le l.
Proof.
  induction l as [|x [|y r] IH]; intros H.
  - constructor.
  - repeat constructor.
  - cbn [sorted_b] in H. apply andb_true_iff in H as [Hxy Hr].
    constructor; [now apply IH|]. constructor. now apply Z.leb_le.
Qed.

Lemma is_indexer_Permutation (n : nat) (idx : list nat) :
  is_indexer n idx = true -> Permutation (seq 0 n) idx.
Proof.
  unfold is_indexer. intros H. apply andb_true_iff in H as [Hlen Hall].
  apply Nat.eqb_eq in Hlen.
  apply NoDup_Permutation_bis.
  - apply seq_NoDup.
  - rewrite length_seq. lia.
  - intros i Hi. rewrite forallb_forall in Hall.
    apply Hall in Hi. apply existsb_exists in Hi as (j & Hj & Hij).
    apply Nat.eqb_eq in Hij. now subst.
Qed.

Lemma take_in_bounds {A} (df : list A) (d : A) (idx : list nat) :
  Forall (fun i => (i < List.length df)%nat) idx ->
  take df idx = inr (map (fun i => nth i df d) idx).
Proof.
  induction 1 as [|i idx Hi _ IH]; [reflexivity|].
  cbn [take map]. rewrite (nth_error_nth' df d Hi), IH. reflexivity.
Qed.

Lemma map_nth_seq {A} (l : list A) (d : A) :
  map (fun i => nth i l d) (seq 0 (List.length l)) = l.
Proof.
  apply (nth_ext _ _ d d).
  - now rewrite length_map, length_seq.
  - intros n Hn. rewrite length_map, length_seq in Hn.
    rewrite (nth_indep _ d (nth 0 l d))
      by now rewrite length_map, length_seq.
    rewrite (map_nth (fun i => nth i l d) (seq 0 (List.length l)) 0%nat n).
    now rewrite seq_nth.
Qed.

(** With a sorting indexer the sort succeeds, keeps the rows and leaves
    the identifiers in non-decreasing order. *)
Lemma sort_values_sorted argsort (df : list Row) :
  argsort_ok (map center_id df) (argsort (map center_id df)) = true ->
  exists out,
    sort_values argsort df = inr out
    /\ Permutation df out
    /\ Sorted Z.le (map center_id out).
Proof.
  intros Hok. unfold argsort_ok in Hok.
  apply andb_true_iff in Hok as [Hidx Hsorted].
  rewrite length_map in Hidx.
  apply is_indexer_Permutation in Hidx.
  set (idx := argsort (map center_id df)) in *.
  assert (Hb : Forall (fun i => (i < List.length df)%nat) idx).
  { apply Forall_forall. intros i Hi.
    apply (Permutation_in _ (Permutation_sym Hidx)) in Hi.
    apply in_seq in Hi. lia. }
  exists (map (fun i => nth i df no_row) idx). repeat split.
  - unfold sort_values. fold idx. now apply take_in_bounds.
  - rewrite <- (map_nth_seq df no_row) at 1. now apply Permutation_map.
  - rewrite map_map. apply sorted_b_Sorted.
    erewrite map_ext; [exact Hsorted|].
    intros i. cbv beta. now rewrite <- (map_nth center_id df no_row i).
Qed.

(* ================================================================== *)
(** ** Identifiers above the 16-bit range *)

Lemma Forall2_In_l {A B} (R : A -> B -> Prop) (l : list A) (l' : list B) :
  Forall2 R l l' -> forall x, In x l -> exists y, In y l' /\ R x y.
Proof.
  induction 1 as [|x y l l' HR _ IH]; intros z Hz; [destruct Hz|].
  destruct Hz as [<-|Hz].
  - exists y. split; [now left | exact HR].
  - destruct (IH z Hz) as (y' & Hy' & HR').
    exists y'. split; [now right | exact HR'].
Qed.

(** C3 (as amended): for a surviving row whose identifier text denotes an
    integer above 32767, the conversion is no error as long as the text
    has at most 4300 digits and the integer fits a signed 64-bit C long:
    the value silently wraps around modulo 65536 into the 16-bit range,
    and when the other rows convert as well, the sort returns a sorting
    indexer and the destination can be written, the run succeeds and
    writes the row with the wrapped value.  Beyond that the conversion is
    a fatal error: [process] raises, the exception is not the one [main]
    handles, and no output is written. *)
Theorem identifier_above_int16_wraps_or_fails
    argsort env src dst latest file cells i id st :
  py_max (filter is_date (glob_star env src)) = inr latest ->
  item0 (map (path_join (path_join src latest))
             (glob_star env (path_join src latest))) = inr file ->
  read_excel_file env file = inr cells ->
  In (mkStrRow i (Some id) (Some st)) (frame_of_sheet cells) ->
  passes (mkStrRow i (Some id) (Some st)) = true ->
  all_chars is_decimal id = true ->
  INT16_MAX < decimal_value id ->
  let w := warnings src (glob_star env src) in
  (Z.of_nat (String.length id) <= max_str_digits ->
   decimal_value id <= LONG_MAX ->
   SHORT_setitem id = inr (to_int16 (decimal_value id))
   /\ to_int16 (decimal_value id) <> decimal_value id
   /\ forall df,
        assign (row_filter (frame_of_sheet cells)) latest = inr df ->
        argsort_ok (map center_id df) (argsort (map center_id df)) = true ->
        open_error env dst = None ->
        exists out o,
          process argsort env src dst
          = (w ++ [ReadExcel file; ToCsv dst (map csv_row out)], inr tt)
          /\ In o out /\ index o = i
          /\ center_id o = to_int16 (decimal_value id))
  /\ (max_str_digits < Z.of_nat (String.length id)
      \/ LONG_MAX < decimal_value id ->
      exists e,
        process argsort env src dst = (w ++ [ReadExcel file], inl e)
        /\ is_DataProcessingError e = false
        /\ forall p rows, ~ In (ToCsv p rows) (w ++ [ReadExcel file])).
Proof.
  intros Hmax Hfile Hread Hin Hp Hdec Hbig w. subst w.
  assert (Hd : str_isdigit id = true).
  { apply passes_inv in Hp as (id' & st' & Hid & _ & Hd & _).
    cbn in Hid. now injection Hid as <-. }
  pose proof (SHORT_setitem_isdigit _ Hd) as Hs. rewrite Hdec in Hs.
  assert (Hf : In (mkStrRow i (Some id) (Some st))
                  (row_filter (frame_of_sheet cells))).
  { rewrite getitem_mask_filter. apply filter_In. now split. }
  split.
  - intros Hlen Hfit.
    assert (Hv : SHORT_setitem id = inr (to_int16 (decimal_value id))).
    { rewrite Hs.
      destruct (Z.ltb_spec max_str_digits (Z.of_nat (String.length id)));
        [lia|].
      destruct (Z.leb_spec (decimal_value id) LONG_MAX); [reflexivity | lia]. }
    split; [exact Hv|]. split.
    + pose proof (to_int16_range (decimal_value id)).
      unfold INT16_MAX in *. lia.
    + intros df Ha Hok Hopen.
      destruct (sort_values_sorted argsort df Hok) as (out & Hsort & Hperm & _).
      destruct (Forall2_In_l _ _ _ (assign_converted _ _ _ Ha) _ Hf)
        as (o & Ho & Hi & _ & _ & id' & Hid' & Hv').
      cbn in Hi, Hid'. injection Hid' as <-.
      exists out, o. repeat split.
      * rewrite process_eq. unfold process_stages. rewrite Hmax. cbv zeta.
        rewrite Hfile, Hread. unfold transform. now rewrite Ha, Hsort, Hopen.
      * now apply (Permutation_in _ Hperm).
      * exact Hi.
      * congruence.
  - intros Hover.
    assert (He : exists e, SHORT_setitem id = inl e).
    { rewrite Hs.
      destruct (Z.ltb_spec max_str_digits (Z.of_nat (String.length id)));
        [now eexists|].
      destruct (Z.leb_spec (decimal_value id) LONG_MAX); [lia | now eexists]. }
    destruct He as [e0 He].
    destruct (assign_fails latest _ _ id e0 Hf eq_refl He) as [e Ha].
    assert (Ht : transform argsort (frame_of_sheet cells) latest = inl e).
    { unfold transform. now rewrite Ha. }
    exists e. split; [|split].
    + rewrite process_eq. unfold process_stages. rewrite Hmax. cbv zeta.
      now rewrite Hfile, Hread, Ht.
    + now apply transform_error in Ht.
    + intros p rows. apply no_ToCsv_in_warnings.
Qed.

Lemma identifier_above_int16_wraps_or_fails_witness :
  (SHORT_setitem "40000" = inr (-25536)
   /\ exists out o,
        process npy_aquicksort big_id "data" "out.csv"
        = ([ReadExcel "data/2023-06-15/gyms.xlsx";
            ToCsv "out.csv" (map csv_row out)]%string, inr tt)
        /\ In o out /\ index o = 0%nat /\ center_id o = -25536)
  /\ exists e,
       process npy_aquicksort huge_id "data" "out.csv"
       = ([ReadExcel "data/2023-06-15/gyms.xlsx"], inl e)
       /\ is_DataProcessingError e = false.
Proof.
  split.
  - destruct (identifier_above_int16_wraps_or_fails npy_aquicksort big_id
                "data" "out.csv" "2023-06-15" "data/2023-06-15/gyms.xlsx"
                [(Some "40000", Some "LFL")]%string 0%nat "40000" "LFL"
                eq_refl eq_refl eq_refl (or_introl eq_refl) eq_refl eq_refl
                eq_refl) as [H _].
    destruct H as (H1 & _ & H3); [vm_compute; discriminate ..|].
    split; [exact H1|].
    exact (H3 [mkRow 0 (-25536) (Some "LFL") "2023-06-15"]%string
              eq_refl eq_refl eq_refl).
  - destruct (identifier_above_int16_wraps_or_fails npy_aquicksort huge_id
                "data" "out.csv" "2023-06-15" "data/2023-06-15/gyms.xlsx"
                [(Some "9223372036854775808", Some "LFL")]%string 0%nat
                "9223372036854775808" "LFL"
                eq_refl eq_refl eq_refl (or_introl eq_refl) eq_refl eq_refl
                eq_refl) as [_ H].
    destruct (H (or_intror eq_refl)) as (e & He & Hd & _).
    exists e. split; [exact He | exact Hd].
Defined.

(** C3, the claim as stated fails: the identifier text "40000" exceeds
    32767, yet the run ends without an error and writes a well-formed
    output whose center_id is the wrapped value -25536. *)
Lemma identifier_40000_wraps_silently :
  process npy_aquicksort big_id "data" "out.csv"
  = ([ReadExcel "data/2023-06-15/gyms.xlsx";
      ToCsv "out.csv" [mkCsvRow (-25536) (Some "LFL") "2023-06-15"]]%string,
     inr tt).
Proof. vm_compute. reflexivity. Qed.

(* ================================================================== *)
(** ** The date validator *)

Lemma digit_char_value (c : ascii) : digit_char (digit_value c) = c.
Proof.
  unfold digit_char, digit_value, code.
  replace (48 + (Z.of_N (N_of_ascii c) - 48)) with (Z.of_N (N_of_ascii c))
    by lia.
  rewrite N2Z.id. apply ascii_N_embedding.
Qed.

Lemma code_digit_char (n : Z) : 0 <= n <= 9 -> code (digit_char n) = 48 + n.
Proof.
  intros H. unfold code, digit_char.
  rewrite N_ascii_embedding; [apply Z2N.id; lia|].
  apply N2Z.inj_lt. rewrite Z2N.id by lia.
  change (Z.of_N 256) with 256. lia.
Qed.

Lemma digit_char_ok (n : Z) :
  0 <= n <= 9 ->
  is_decimal (digit_char n) = true /\ digit_value (digit_char n) = n.
Proof.
  intros H. unfold is_decimal, in_range, digit_value.
  rewrite (code_digit_char n H). split; [|lia].
  apply andb_true_iff. split; apply Z.leb_le; lia.
Qed.

Lemma lit_eq (n : Z) (c : ascii) :
  lit n c = true -> c = ascii_of_N (Z.to_N n).
Proof.
  unfold lit, code. intros H. apply Z.eqb_eq in H. subst n.
  rewrite N2Z.id. symmetry. apply ascii_N_embedding.
Qed.

Lemma in_range_digit (lo hi : Z) (c : ascii) :
  in_range lo hi c = true -> lo <= 48 + digit_value c <= hi.
Proof.
  unfold in_range, digit_value. intros H.
  apply andb_true_iff in H as [H1 H2].
  apply Z.leb_le in H1. apply Z.leb_le in H2. lia.
Qed.

Lemma one_inv p f s v r :
  one p f s = Some (v, r) ->
  exists c, s = String c r /\ p c = true /\ v = f c.
Proof.
  unfold one. destruct s as [|c s']; [discriminate|].
  destruct (p c) eqn:Hp; [|discriminate].
  intros H. injection H as <- <-. now exists c.
Qed.

Lemma two_inv p1 p2 f s v r :
  two p1 p2 f s = Some (v, r) ->
  exists c1 c2,
    s = String c1 (String c2 r) /\ p1 c1 = true /\ p2 c2 = true
    /\ v = f c1 c2.
Proof.
  unfold two. destruct s as [|c1 [|c2 s']]; try discriminate.
  destruct (p1 c1) eqn:H1; [|discriminate].
  destruct (p2 c2) eqn:H2; [|discriminate].
  intros H. injection H as <- <-. now exists c1, c2.
Qed.

Lemma first_match_inv {B} (alts : list alt) (k : Z -> string -> option B)
    (s : string) (b : B) :
  first_match alts k s = Some b ->
  exists a v r, In a alts /\ a s = Some (v, r) /\ k v r = Some b.
Proof.
  induction alts as [|a alts IH]; [discriminate|].
  cbn [first_match].
  destruct (a s) as [[v r]|] eqn:Ha.
  - destruct (k v r) as [b'|] eqn:Hk.
    + intros H. injection H as <-. exists a, v, r. now repeat split; [left| |].
    + intros H. destruct (IH H) as (a' & v' & r' & Hin & Ha' & Hk').
      exists a', v', r'. now repeat split; [right| |].
  - intros H. destruct (IH H) as (a' & v' & r' & Hin & Ha' & Hk').
    exists a', v', r'. now repeat split; [right| |].
Qed.

(** A property of every integer of a short range holds for each of them. *)
Lemma Z_range_cases (lo : Z) (n : nat) (P : Z -> Prop) :
  Forall P (Z_range lo n) ->
  forall v, lo <= v < lo + Z.of_nat n -> P v.
Proof.
  intros H v Hv. rewrite Forall_forall in H. apply H.
  unfold Z_range. apply in_map_iff.
  exists (Z.to_nat (v - lo)). split; [lia|].
  apply in_seq. lia.
Qed.

Ltac by_cases_on v lo n :=
  let H := fresh in
  assert (H : lo <= v < lo + Z.of_nat n) by (cbn; lia);
  revert H; generalize v; apply Z_range_cases;
  let l := eval vm_compute in (Z_range lo n) in
  change (Z_range lo n) with l;
  repeat apply Forall_cons; try apply Forall_nil; cbv beta.

Lemma month_alt_inv (a : alt) (s : string) (m : Z) (r : string) :
  In a month_alts -> a s = Some (m, r) ->
  exists ms, s = (ms ++ r)%string /\ In ms (month_texts m) /\ 1 <= m <= 12.
Proof.
  intros Hin Ha. cbn in Hin.
  destruct Hin as [<-|[<-|[<-|[]]]].
  - apply two_inv in Ha as (c1 & c2 & -> & H1 & H2 & ->).
    apply lit_eq in H1 as ->. apply in_range_digit in H2.
    rewrite <- (digit_char_value c2). set (v := digit_value c2) in *.
    clearbody v. clear c2.
    exists (String (ascii_of_N (Z.to_N 49)) (String (digit_char v) "")).
    split; [reflexivity|]. by_cases_on v 0 3%nat;
      (split; [vm_compute; auto 6 | vm_compute; split; discriminate]).
  - apply two_inv in Ha as (c1 & c2 & -> & H1 & H2 & ->).
    apply lit_eq in H1 as ->. apply in_range_digit in H2.
    rewrite <- (digit_char_value c2). set (v := digit_value c2) in *.
    clearbody v. clear c2.
    exists (String (ascii_of_N (Z.to_N 48)) (String (digit_char v) "")).
    split; [reflexivity|]. by_cases_on v 1 9%nat;
      (split; [vm_compute; auto 6 | vm_compute; split; discriminate]).
  - apply one_inv in Ha as (c & -> & H1 & ->).
    apply in_range_digit in H1.
    rewrite <- (digit_char_value c). set (v := digit_value c) in *.
    clearbody v. clear c.
    exists (String (digit_char v) "").
    split; [reflexivity|]. by_cases_on v 1 9%nat;
      (split; [vm_compute; auto 6 | vm_compute; split; discriminate]).
Qed.

Lemma day_alt_inv (a : alt) (s : string) (d : Z) (r : string) :
  In a day_alts -> a s = Some (d, r) ->
  exists ds, s = (ds ++ r)%string /\ In ds (day_texts d) /\ 1 <= d <= 31.
Proof.
  intros Hin Ha. cbn in Hin.
  destruct Hin as [<-|[<-|[<-|[<-|[<-|[]]]]]].
  - apply two_inv in Ha as (c1 & c2 & -> & H1 & H2 & ->).
    apply lit_eq in H1 as ->. apply in_range_digit in H2.
    rewrite <- (digit_char_value c2). set (v := digit_value c2) in *.
    clearbody v. clear c2.
    exists (String (ascii_of_N (Z.to_N 51)) (String (digit_char v) "")).
    split; [reflexivity|]. by_cases_on v 0 2%nat;
      (split; [vm_compute; auto 6 | vm_compute; split; discriminate]).
  - apply two_inv in Ha as (c1 & c2 & -> & H1 & H2 & ->).
    apply in_range_digit in H1. apply in_range_digit in H2.
    rewrite <- (digit_char_value c1), <- (digit_char_value c2).
    set (v1 := digit_value c1) in *. set (v2 := digit_value c2) in *.
    clearbody v1 v2. clear c1 c2.
    exists (String (digit_char v1) (String (digit_char v2) "")).
    split; [reflexivity|].
    by_cases_on v1 1 2%nat; by_cases_on v2 0 10%nat;
      (split; [vm_compute; auto 6 | vm_compute; split; discriminate]).
  - apply two_inv in Ha as (c1 & c2 & -> & H1 & H2 & ->).
    apply lit_eq in H1 as ->. apply in_range_digit in H2.
    rewrite <- (digit_char_value c2). set (v := digit_value c2) in *.
    clearbody v. clear c2.
    exists (String (ascii_of_N (Z.to_N 48)) (String (digit_char v) "")).
    split; [reflexivity|]. by_cases_on v 1 9%nat;
      (split; [vm_compute; auto 6 | vm_compute; split; discriminate]).
  - apply one_inv in Ha as (c & -> & H1 & ->).
    apply in_range_digit in H1.
    rewrite <- (digit_char_value c). set (v := digit_value c) in *.
    clearbody v. clear c.
    exists (String (digit_char v) "").
    split; [reflexivity|]. by_cases_on v 1 9%nat;
      (split; [vm_compute; auto 6 | vm_compute; split; discriminate]).
  - apply two_inv in Ha as (c1 & c2 & -> & H1 & H2 & ->).
    apply lit_eq in H1 as ->. apply in_range_digit in H2.
    rewrite <- (digit_char_value c2). set (v := digit_value c2) in *.
    clearbody v. clear c2.
    exists (String (ascii_of_N (Z.to_N 32)) (String (digit_char v) "")).
    split; [reflexivity|]. by_cases_on v 1 9%nat;
      (split; [vm_compute; auto 6 | vm_compute; split; discriminate]).
Qed.

Lemma append_empty_r (s : string) : (s ++ "")%string = s.
Proof. induction s as [|c s IH]; [reflexivity|]. cbn. now rewrite IH. Qed.

Lemma dash_inv (s r : string) : dash s = Some r -> s = String "-" r.
Proof.
  unfold dash. destruct s as [|c s']; [discriminate|].
  destruct (lit 45 c) eqn:Hc; [|discriminate].
  intros H. injection H as <-. now apply lit_eq in Hc as ->.
Qed.

Lemma month_day_groups_inv (s : string) (m d : Z) :
  month_day_groups s = Some (m, d, EmptyString) ->
  exists ms ds,
    s = ("-" ++ ms ++ "-" ++ ds)%string
    /\ In ms (month_texts m) /\ In ds (day_texts d)
    /\ 1 <= m <= 12 /\ 1 <= d <= 31.
Proof.
  unfold month_day_groups.
  destruct (dash s) as [r2|] eqn:H1; [|discriminate].
  apply dash_inv in H1 as ->. intros H.
  apply first_match_inv in H as (a & m' & r3 & Ha & Hm & H).
  destruct (dash r3) as [r4|] eqn:H3; [|discriminate].
  apply dash_inv in H3 as ->.
  apply first_match_inv in H as (a' & d' & r5 & Ha' & Hd & H).
  injection H as -> -> ->.
  destruct (month_alt_inv _ _ _ _ Ha Hm) as (ms & -> & Hms & Hmr).
  destruct (day_alt_inv _ _ _ _ Ha' Hd) as (ds & -> & Hds & Hdr).
  exists ms, ds. repeat split; trivial; try lia.
  cbn [String.append]. now rewrite append_empty_r.
Qed.

Lemma texts_read_back_ok : texts_read_back = true.
Proof. vm_compute. reflexivity. Qed.

Lemma month_day_groups_texts (m d : Z) (ms ds : string) :
  1 <= m <= 12 -> 1 <= d <= 31 ->
  In ms (month_texts m) -> In ds (day_texts d) ->
  month_day_groups ("-" ++ ms ++ "-" ++ ds)%string = Some (m, d, EmptyString).
Proof.
  intros Hm Hd Hms Hds.
  pose proof texts_read_back_ok as H. unfold texts_read_back in H.
  rewrite forallb_forall in H.
  assert (Him : In m (Z_range 1 12)).
  { unfold Z_range. apply in_map_iff. exists (Z.to_nat (m - 1)).
    split; [lia|]. apply in_seq. lia. }
  specialize (H m Him). rewrite forallb_forall in H.
  assert (Hid : In d (Z_range 1 31)).
  { unfold Z_range. apply in_map_iff. exists (Z.to_nat (d - 1)).
    split; [lia|]. apply in_seq. lia. }
  specialize (H d Hid). rewrite forallb_forall in H.
  specialize (H ms Hms). rewrite forallb_forall in H.
  specialize (H ds Hds).
  destruct (month_day_groups _) as [[[m' d'] [|c r]]|]; try discriminate.
  apply andb_true_iff in H as [H1 H2].
  apply Z.eqb_eq in H1. apply Z.eqb_eq in H2. now subst.
Qed.

Lemma year_group_inv (s : string) (y : Z) (r : string) :
  year_group s = Some (y, r) ->
  s = (four_digits y ++ r)%string /\ 0 <= y <= 9999.
Proof.
  unfold year_group.
  destruct s as [|a [|b [|c [|d s']]]]; try discriminate.
  destruct (is_decimal a) eqn:Ha; [|discriminate].
  destruct (is_decimal b) eqn:Hb; [|discriminate].
  destruct (is_decimal c) eqn:Hc; [|discriminate].
  destruct (is_decimal d) eqn:Hd; [|discriminate].
  cbv beta iota delta [andb]. intros H.
  assert (Hy : y = 1000 * digit_value a + 100 * digit_value b
                   + 10 * digit_value c + digit_value d) by congruence.
  assert (Hr : r = s') by congruence.
  clear H. subst y r.
  apply in_range_digit in Ha, Hb, Hc, Hd.
  pose proof (digit_char_value a) as Ea. pose proof (digit_char_value b) as Eb.
  pose proof (digit_char_value c) as Ec. pose proof (digit_char_value d) as Ed.
  set (va := digit_value a) in *. set (vb := digit_value b) in *.
  set (vc := digit_value c) in *. set (vd := digit_value d) in *.
  clearbody va vb vc vd. subst a b c d.
  split; [|lia]. unfold four_digits. cbn [String.append].
  repeat f_equal; Z.div_mod_to_equations; lia.
Qed.

Lemma year_group_four_digits (y : Z) (r : string) :
  0 <= y <= 9999 -> year_group (four_digits y ++ r)%string = Some (y, r).
Proof.
  intros H. unfold four_digits, year_group. cbn [String.append].
  destruct (digit_char_ok (y / 1000)) as [-> ->];
    [Z.div_mod_to_equations; lia|].
  destruct (digit_char_ok (y / 100 mod 10)) as [-> ->];
    [Z.div_mod_to_equations; lia|].
  destruct (digit_char_ok (y / 10 mod 10)) as [-> ->];
    [Z.div_mod_to_equations; lia|].
  destruct (digit_char_ok (y mod 10)) as [-> ->];
    [Z.div_mod_to_equations; lia|].
  cbv beta iota delta [andb]. do 2 f_equal. Z.div_mod_to_equations. lia.
Qed.

Lemma date_ok_bounds (y m d : Z) :
  date_ok y m d = true -> 1 <= y <= 9999 /\ 1 <= m <= 12 /\ 1 <= d <= 31.
Proof.
  unfold date_ok. intros H.
  repeat (apply andb_true_iff in H as [H ?]).
  repeat match goal with
         | H : (_ <=? _) = true |- _ => apply Z.leb_le in H
         end.
  assert (days_in_month y m <= 31).
  { unfold days_in_month.
    destruct (m =? 2); [destruct (is_leap y); lia|].
    destruct (_ || _); lia. }
  lia.
Qed.

Lemma format_regex_match_texts (y m d : Z) (s : string) :
  date_ok y m d = true -> In s (date_texts y m d) ->
  format_regex_match s = Some (y, m, d, EmptyString).
Proof.
  intros Hok Hs. apply date_ok_bounds in Hok as (Hy & Hm & Hd).
  unfold date_texts in Hs. apply in_flat_map in Hs as (ms & Hms & Hs).
  apply in_map_iff in Hs as (ds & <- & Hds).
  unfold format_regex_match.
  rewrite year_group_four_digits by lia.
  now rewrite (month_day_groups_texts m d ms ds Hm Hd Hms Hds).
Qed.

Lemma format_regex_match_inv (s : string) (y m d : Z) :
  format_regex_match s = Some (y, m, d, EmptyString) ->
  In s (date_texts y m d).
Proof.
  unfold format_regex_match.
  destruct (year_group s) as [[y' r1]|] eqn:Hy; [|discriminate].
  destruct (month_day_groups r1) as [[[m' d'] rest]|] eqn:Hmd; [|discriminate].
  intros H. assert (y' = y /\ m' = m /\ d' = d /\ rest = EmptyString)
    as (-> & -> & -> & ->) by (repeat split; congruence).
  clear H.
  apply year_group_inv in Hy as [-> _].
  apply month_day_groups_inv in Hmd as (ms & ds & -> & Hms & Hds & _).
  unfold date_texts. apply in_flat_map. exists ms. split; [exact Hms|].
  apply in_map_iff. exists ds. now split.
Qed.

Lemma is_date_true_iff (s : string) :
  is_date s = true <->
  exists y m d,
    format_regex_match s = Some (y, m, d, EmptyString)
    /\ date_ok y m d = true.
Proof.
  unfold is_date, strptime. split.
  - destruct (format_regex_match s) as [[[[y m] d] [|c rest]]|];
      try discriminate.
    destruct (date_ok y m d) eqn:Hok; [|discriminate].
    intros _. now exists y, m, d.
  - intros (y & m & d & -> & ->). reflexivity.
Qed.

Lemma isoformat_in_texts (y m d : Z) : In (isoformat y m d) (date_texts y m d).
Proof.
  unfold date_texts, isoformat. apply in_flat_map.
  exists (two_digits m). split.
  - unfold month_texts, plain. destruct (m <? 10); cbn; auto.
  - apply in_map_iff. exists (two_digits d). split; [reflexivity|].
    unfold day_texts, plain. destruct (d <? 10); cbn; auto.
Qed.

(** C5 (as amended): the validator accepts a name exactly when it is one
    of the texts of a real calendar date: a four-digit year from 0001 to
    9999, the month and the day each written plain or with a leading
    zero (the day also with a leading space), the day one that the month
    has.  So every exact zero-padded YYYY-MM-DD date is accepted, a
    variant without the padding such as "2023-1-1" is accepted as well,
    and an impossible date such as day 32 is rejected in all cases; a
    rejected name costs a warning, not an error. *)
Theorem is_date_accepts_the_texts_of_real_dates :
  (forall s,
     is_date s = true <->
     exists y m d, date_ok y m d = true /\ In s (date_texts y m d))
  /\ (forall y m d, date_ok y m d = true -> is_date (isoformat y m d) = true)
  /\ is_date "2023-1-1" = true
  /\ (forall y m d text,
        In text (date_texts y m d) -> date_ok y m d = true -> d <> 32)
  /\ is_date "2023-01-32" = false
  /\ (forall src s,
        _is_date_in_source src s
        = if is_date s then ([], inr true)
          else ([LogWarning src (path_join src s)], inr false)).
Proof.
  assert (A : forall s,
             is_date s = true <->
             exists y m d, date_ok y m d = true /\ In s (date_texts y m d)).
  { intros s. rewrite is_date_true_iff. split.
    - intros (y & m & d & Hm & Hok). exists y, m, d. split; [exact Hok|].
      now apply format_regex_match_inv.
    - intros (y & m & d & Hok & Hs). exists y, m, d. split; [|exact Hok].
      now apply format_regex_match_texts. }
  split; [exact A|]. repeat split.
  - intros y m d Hok. apply A. exists y, m, d. split; [exact Hok|].
    apply isoformat_in_texts.
  - intros y m d text _ Hok. apply date_ok_bounds in Hok. lia.
  - intros src s. unfold _is_date_in_source, is_date.
    destruct (strptime s); reflexivity.
Qed.

(** C5, the claim as stated fails: the name "2023-1-1" is accepted
    although it is not the zero-padded text of any date. *)
Lemma unpadded_name_is_accepted :
  is_date "2023-1-1" = true
  /\ forall y m d, "2023-1-1"%string <> isoformat y m d.
Proof.
  split; [reflexivity|].
  intros y m d H. apply (f_equal String.length) in H. discriminate.
Qed.

(* ================================================================== *)
(** ** The order of names and the folder selection *)

Lemma code_inj (x y : ascii) : code x = code y -> x = y.
Proof.
  unfold code. intros H. apply N2Z.inj in H.
  rewrite <- (ascii_N_embedding x), <- (ascii_N_embedding y). now rewrite H.
Qed.

Lemma leb_String (x y : ascii) (a b : string) :
  (String x a <=? String y b)%string = true <->
  code x < code y \/ (x = y /\ (a <=? b)%string = true).
Proof.
  unfold String.leb. cbn [String.compare]. unfold Ascii.compare, code.
  destruct (N.compare_spec (N_of_ascii x) (N_of_ascii y)) as [E|L|G].
  - assert (x = y) by (apply code_inj; unfold code; now rewrite E).
    subst y. split; [now right|]. intros [H|[_ H]]; [lia | exact H].
  - split; [intros _; left; lia | reflexivity].
  - split; [discriminate|]. intros [H|[-> _]]; lia.
Qed.

Lemma compare_refl (s : string) : (s ?= s)%string = Eq.
Proof.
  induction s as [|c s IH]; [reflexivity|].
  cbn [String.compare]. unfold Ascii.compare. now rewrite N.compare_refl.
Qed.

Lemma leb_refl (s : string) : (s <=? s)%string = true.
Proof. unfold String.leb. now rewrite compare_refl. Qed.

Lemma leb_trans (a b c : string) :
  (a <=? b)%string = true -> (b <=? c)%string = true ->
  (a <=? c)%string = true.
Proof.
  revert b c. induction a as [|x a IH]; intros [|y b] [|z c] Hab Hbc;
    try reflexivity; try discriminate.
  apply leb_String in Hab. apply leb_String in Hbc. apply leb_String.
  destruct Hab as [Hab|[-> Hab]], Hbc as [Hbc|[-> Hbc]].
  - left. lia.
  - now left.
  - now left.
  - right. split; [reflexivity|]. now apply (IH b c).
Qed.

Lemma ltb_leb (a b : string) : (a <? b)%string = true -> (a <=? b)%string = true.
Proof.
  unfold String.ltb, String.leb. now destruct (a ?= b)%string.
Qed.

Lemma ltb_false_leb (a b : string) :
  (a <? b)%string = false -> (b <=? a)%string = true.
Proof.
  unfold String.ltb, String.leb. rewrite (String.compare_antisym a b).
  now destruct (b ?= a)%string.
Qed.

Lemma max_step_cases (m y : string) :
  (max_step m y = m \/ max_step m y = y)
  /\ (m <=? max_step m y)%string = true
  /\ (y <=? max_step m y)%string = true.
Proof.
  unfold max_step. destruct (m <? y)%string eqn:H.
  - repeat split; [now right | now apply ltb_leb | apply leb_refl].
  - repeat split; [now left | apply leb_refl | now apply ltb_false_leb].
Qed.

Lemma fold_max_step (xs : list string) :
  forall x,
    In (fold_left max_step xs x) (x :: xs)
    /\ forall y, In y (x :: xs) ->
                 (y <=? fold_left max_step xs x)%string = true.
Proof.
  induction xs as [|z xs IH]; intros x.
  - cbn. split; [now left|]. intros y [<-|[]]. apply leb_refl.
  - cbn [fold_left].
    destruct (IH (max_step x z)) as [Hin Hle].
    destruct (max_step_cases x z) as (Hc & Hx & Hz).
    split.
    + destruct Hin as [Hin|Hin].
      * rewrite <- Hin. destruct Hc as [-> | ->]; [now left | right; now left].
      * right. now right.
    + intros y [<-|[<-|Hy]].
      * apply (leb_trans _ (max_step x z)); [exact Hx|]. apply Hle. now left.
      * apply (leb_trans _ (max_step x z)); [exact Hz|]. apply Hle. now left.
      * apply Hle. now right.
Qed.

Lemma py_max_spec (l : list string) (x : string) :
  In x l ->
  exists m, py_max l = inr m /\ In m l
            /\ forall y, In y l -> (y <=? m)%string = true.
Proof.
  destruct l as [|a l]; [intros []|]. intros _.
  exists (fold_left max_step l a). split; [reflexivity|].
  apply fold_max_step.
Qed.

Lemma leb_digit_cons (u v : Z) (a b : string) :
  0 <= u <= 9 -> 0 <= v <= 9 ->
  (String (digit_char u) a <=? String (digit_char v) b)%string = true ->
  u < v \/ (u = v /\ (a <=? b)%string = true).
Proof.
  intros Hu Hv H. apply leb_String in H.
  rewrite !code_digit_char in H by assumption.
  destruct H as [H|[E H]]; [left; lia|].
  right. split; [|exact H].
  apply (f_equal code) in E. rewrite !code_digit_char in E by assumption. lia.
Qed.

Lemma leb_same_cons (c : ascii) (a b : string) :
  (String c a <=? String c b)%string = true -> (a <=? b)%string = true.
Proof. intros H. apply leb_String in H as [H|[_ H]]; [lia | exact H]. Qed.

(** On zero-padded texts the order of the names is the order of the
    dates. *)
Lemma isoformat_leb (y1 m1 d1 y2 m2 d2 : Z) :
  0 <= y1 <= 9999 -> 0 <= m1 <= 99 -> 0 <= d1 <= 99 ->
  0 <= y2 <= 9999 -> 0 <= m2 <= 99 -> 0 <= d2 <= 99 ->
  (isoformat y1 m1 d1 <=? isoformat y2 m2 d2)%string = true ->
  date_le (y1, m1, d1) (y2, m2, d2).
Proof.
  intros Hy1 Hm1 Hd1 Hy2 Hm2 Hd2.
  unfold isoformat, four_digits, two_digits. cbn [String.append].
  intros H.
  repeat match goal with
         | H : (String (digit_char _) _ <=? String (digit_char _) _)%string
               = true |- _ =>
             apply leb_digit_cons in H;
             [destruct H as [H|[? H]]
             | Z.div_mod_to_equations; lia | Z.div_mod_to_equations; lia]
         | H : (String ?c _ <=? String ?c _)%string = true |- _ =>
             apply leb_same_cons in H
         end;
    unfold date_le; Z.div_mod_to_equations; lia.
Qed.

Lemma zero_padded_date (n : string) :
  zero_padded n ->
  exists y m d,
    date_of n = Some (y, m, d) /\ n = isoformat y m d
    /\ 0 <= y <= 9999 /\ 0 <= m <= 99 /\ 0 <= d <= 99.
Proof.
  intros (y & m & d & Hs & Hn). exists y, m, d.
  unfold date_of. rewrite Hs. repeat split; trivial;
    assert (Hok : date_ok y m d = true)
      by (unfold strptime in Hs;
          destruct (format_regex_match n) as [[[[y' m'] d'] [|c r]]|];
          try discriminate;
          destruct (date_ok y' m' d') eqn:E; [congruence | discriminate]);
    apply date_ok_bounds in Hok; lia.
Qed.

Lemma date_of_is_date (n : string) (dn : Z * Z * Z) :
  date_of n = Some dn -> is_date n = true.
Proof.
  unfold date_of, is_date. now destruct (strptime n).
Qed.

(** C2 (as amended): when at least one entry name is date-valid, the
    folder selector returns the greatest date-valid name in the order of
    [str] (code point by code point), whatever names that are no dates
    stand between, before or after the others; every such name only costs
    a warning.  The name returned is the latest date whenever the
    date-valid names are all written in the zero-padded form. *)
Theorem latest_folder_is_greatest_valid_name (src : string)
    (names : list string) :
  (exists n, In n names /\ is_date n = true) ->
  exists latest,
    max_date_name (_is_date_in_source src) names
    = (warnings src names, inr latest)
    /\ In latest names /\ is_date latest = true
    /\ (forall n, In n names -> is_date n = true ->
                  (n <=? latest)%string = true)
    /\ (forall before x after,
          names = before ++ x :: after -> is_date x = false ->
          snd (max_date_name (_is_date_in_source src) (before ++ after))
          = inr latest)
    /\ ((forall n, In n names -> is_date n = true -> zero_padded n) ->
        forall n dn, In n names -> date_of n = Some dn ->
        exists dl, date_of latest = Some dl /\ date_le dn dl).
Proof.
  intros (n0 & Hn0 & Hd0).
  assert (Hf : In n0 (filter is_date names)) by (apply filter_In; now split).
  destruct (py_max_spec _ _ Hf) as (latest & Hmax & Hin & Hle).
  apply filter_In in Hin as [Hin Hdate].
  exists latest. rewrite max_date_name_eq, Hmax.
  split; [reflexivity|]. split; [exact Hin|]. split; [exact Hdate|].
  split; [|split].
  - intros n Hn Hd. apply Hle. apply filter_In. now split.
  - intros before x after -> Hx. rewrite max_date_name_eq. cbn [snd].
    rewrite <- Hmax, !filter_app. cbn [filter]. now rewrite Hx.
  - intros Hpad n dn Hn Hdn.
    pose proof (date_of_is_date _ _ Hdn) as Hd.
    destruct (zero_padded_date _ (Hpad n Hn Hd))
      as (y1 & m1 & d1 & E1 & N1 & By1 & Bm1 & Bd1).
    destruct (zero_padded_date _ (Hpad latest Hin Hdate))
      as (y2 & m2 & d2 & E2 & N2 & By2 & Bm2 & Bd2).
    exists (y2, m2, d2). split; [exact E2|].
    rewrite E1 in Hdn. injection Hdn as <-.
    apply isoformat_leb; trivial.
    rewrite <- N1, <- N2. apply Hle. apply filter_In. now split.
Qed.

Lemma latest_folder_is_greatest_valid_name_witness :
  (exists n, In n ["2023-01-01"; "2023-06-15"; "notes"]%string
             /\ is_date n = true)
  /\ exists latest,
       max_date_name (_is_date_in_source "data")
         ["2023-01-01"; "2023-06-15"; "notes"]%string
       = (warnings "data" ["2023-01-01"; "2023-06-15"; "notes"]%string,
          inr latest)
       /\ In latest ["2023-01-01"; "2023-06-15"; "notes"]%string
       /\ is_date latest = true.
Proof.
  assert (H : exists n, In n ["2023-01-01"; "2023-06-15"; "notes"]%string
                        /\ is_date n = true).
  { exists "2023-06-15"%string. split; [right; left; reflexivity|reflexivity]. }
  split; [exact H|].
  destruct (latest_folder_is_greatest_valid_name "data" _ H)
    as (latest & H1 & H2 & H3 & _).
  exists latest. repeat split; assumption.
Defined.

(** C2, the claim as stated fails: of the two date-valid names "2023-9-1"
    and "2023-10-01" the selector returns "2023-9-1", the greater text,
    although it is the earlier date. *)
Lemma greatest_name_is_not_the_latest_date :
  max_date_name (_is_date_in_source "data") ["2023-9-1"; "2023-10-01"]%string
  = ([], inr "2023-9-1"%string)
  /\ date_of "2023-9-1" = Some (2023, 9, 1)
  /\ date_of "2023-10-01" = Some (2023, 10, 1)
  /\ ~ date_le (2023, 10, 1) (2023, 9, 1).
Proof.
  repeat split. unfold date_le. lia.
Qed.

(* ================================================================== *)
(** * Further properties of the run *)

(** ** The trace of a run *)

Lemma warnings_all_warnings src names :
  filter is_warning (warnings src names) = warnings src names.
Proof.
  unfold warnings.
  induction (filter (fun n => negb (is_date n)) names) as [|n l IH];
    [reflexivity|].
  cbn. now rewrite IH.
Qed.

(** X1: every run of [process], whatever its outcome, first logs one
    warning for each entry name that is no date, in the order of the
    listing, naming the source folder and the rejected path; after the
    warnings it reads at most one file and then writes at most one, and
    it logs no other warning. *)
Theorem trace_is_warnings_then_read_then_write argsort env src dst :
  let tr := fst (process argsort env src dst) in
  let w := map (fun n => LogWarning src (path_join src n))
               (filter (fun n => negb (is_date n)) (glob_star env src)) in
  filter is_warning tr = w
  /\ exists rest,
       tr = w ++ rest
       /\ (rest = []
           \/ (exists file, rest = [ReadExcel file])
           \/ (exists file rows, rest = [ReadExcel file; ToCsv dst rows])).
Proof.
  cbv zeta. fold (warnings src (glob_star env src)).
  rewrite process_eq. unfold process_stages. cbv zeta.
  set (w := warnings src (glob_star env src)).
  assert (W : filter is_warning w = w) by apply warnings_all_warnings.
  assert (W0 : forall rest, forallb (fun ev => negb (is_warning ev)) rest = true ->
               filter is_warning (w ++ rest) = w).
  { intros rest Hr. rewrite filter_app, W.
    replace (filter is_warning rest) with (@nil event);
      [apply app_nil_r|].
    induction rest as [|ev rest IH]; [reflexivity|].
    cbn in Hr. apply andb_true_iff in Hr as [H1 H2].
    cbn. destruct (is_warning ev); [discriminate | now apply IH]. }
  destruct (py_max _) as [e|latest]; cbn [fst].
  { split; [exact W|]. exists []. split; [now rewrite app_nil_r | now left]. }
  destruct (item0 _) as [e|file]; cbn [fst].
  { split; [exact W|]. exists []. split; [now rewrite app_nil_r | now left]. }
  destruct (read_excel_file env file) as [e|cells]; cbn [fst].
  { split; [now apply W0|]. exists [ReadExcel file].
    split; [reflexivity | right; left; now exists file]. }
  destruct (transform _ _ _) as [e|out]; cbn [fst].
  { split; [now apply W0|]. exists [ReadExcel file].
    split; [reflexivity | right; left; now exists file]. }
  destruct (open_error env dst); cbn [fst].
  - split; [now apply W0|]. exists [ReadExcel file].
    split; [reflexivity | right; left; now exists file].
  - split; [now apply W0|]. exists [ReadExcel file; ToCsv dst (map csv_row out)].
    split; [reflexivity | right; right; now exists file, (map csv_row out)].
Qed.


(** ** The file that is read *)

(** X3: of the entries of the selected folder only the first one listed
    is read; whatever else the folder lists after it makes no difference
    to the run. *)
Theorem only_the_first_listed_file_is_read
    argsort env env' src dst latest first others :
  py_max (filter is_date (glob_star env src)) = inr latest ->
  glob_star env (path_join src latest) = first :: others ->
  glob_star env' (path_join src latest) = [first] ->
  glob_star env' src = glob_star env src ->
  (forall p, read_excel_file env' p = read_excel_file env p) ->
  open_error env' dst = open_error env dst ->
  process argsort env src dst = process argsort env' src dst
  /\ forall p, In (ReadExcel p) (fst (process argsort env src dst)) ->
               p = path_join (path_join src latest) first.
Proof.
  intros Hmax Hl Hl' Hs Hr Ho.
  rewrite !process_eq. unfold process_stages.
  rewrite Hs, Hmax. cbv zeta. rewrite Hl, Hl'. cbn [map item0].
  rewrite Hr, Ho. split; [reflexivity|].
  set (file := path_join (path_join src latest) first).
  assert (R : forall rest p,
            In (ReadExcel p) (warnings src (glob_star env src)
                              ++ ReadExcel file :: rest) ->
            (forall q, ~ In (ReadExcel q) rest) -> p = file).
  { intros rest p H Hrest. apply in_app_or in H as [H|[H|H]].
    - now apply no_ReadExcel_in_warnings in H.
    - now injection H.
    - now apply Hrest in H. }
  intros p.
  destruct (read_excel_file env file) as [e|cells]; cbn [fst].
  { intros H. apply (R [] p H). intros q []. }
  destruct (transform _ _ _) as [e|out]; cbn [fst].
  { intros H. apply (R [] p H). intros q []. }
  destruct (open_error env dst); cbn [fst].
  - intros H. apply (R [] p H). intros q [].
  - intros H. apply (R [ToCsv dst (map csv_row out)] p H).
    intros q [Hq|[]]. discriminate.
Qed.

Lemma only_the_first_listed_file_is_read_witness :
  process npy_aquicksort two_files "data" "out.csv"
  = process npy_aquicksort one_file "data" "out.csv"
  /\ forall p,
       In (ReadExcel p) (fst (process npy_aquicksort two_files "data" "out.csv"))
       -> p = "data/2023-06-15/gyms.xlsx"%string.
Proof.
  apply (only_the_first_listed_file_is_read npy_aquicksort two_files one_file
           "data" "out.csv" "2023-06-15" "gyms.xlsx" ["other.xlsx"]%string);
    reflexivity.
Defined.

(** ** The folder that is selected *)

Lemma Permutation_filter' {A} (p : A -> bool) (l l' : list A) :
  Permutation l l' -> Permutation (filter p l) (filter p l').
Proof.
  induction 1 as [|x l l' _ IH|x y l|l l' l'' _ IH1 _ IH2]; cbn.
  - constructor.
  - destruct (p x); [now constructor | exact IH].
  - destruct (p x), (p y); try apply Permutation_refl. apply perm_swap.
  - now apply (Permutation_trans IH1).
Qed.

(** X4: the folder that is selected does not depend on the order in
    which the directory lists its entries: two listings of the same names
    select the same folder, or both fail for want of a date-valid name. *)
Theorem selected_folder_independent_of_listing_order (src : string)
    (names names' : list string) :
  Permutation names names' ->
  snd (max_date_name (_is_date_in_source src) names)
  = snd (max_date_name (_is_date_in_source src) names').
Proof.
  intros HP. rewrite !max_date_name_eq. cbn [snd].
  apply (Permutation_filter' is_date) in HP.
  destruct (filter is_date names) as [|a l] eqn:E.
  - apply Permutation_nil in HP. now rewrite HP.
  - assert (Ha : In a (a :: l)) by now left.
    destruct (py_max_spec _ _ Ha) as (m & -> & Hm & Hle).
    assert (Ha' : In a (filter is_date names'))
      by now apply (Permutation_in _ HP).
    destruct (py_max_spec _ _ Ha') as (m' & -> & Hm' & Hle').
    f_equal. apply String.leb_antisym.
    + apply Hle'. now apply (Permutation_in _ HP).
    + apply Hle. now apply (Permutation_in _ (Permutation_sym HP)).
Qed.

Lemma selected_folder_independent_of_listing_order_witness :
  snd (max_date_name (_is_date_in_source "data")
         ["2023-01-01"; "notes"; "2023-06-15"]%string)
  = snd (max_date_name (_is_date_in_source "data")
           ["2023-06-15"; "2023-01-01"; "notes"]%string).
Proof.
  apply (selected_folder_independent_of_listing_order "data").
  apply Permutation_sym.
  change (Permutation
            (["2023-06-15"]%string ++ ["2023-01-01"; "notes"]%string)
            (["2023-01-01"; "notes"]%string ++ ["2023-06-15"]%string)).
  apply Permutation_app_comm.
Defined.

(** ** The rows that are written *)

Lemma frame_from_index (cells : list (Cell * Cell)) :
  forall i, map s_index (frame_from i cells) = seq i (List.length cells).
Proof.
  induction cells as [|[g l] cells IH]; intros i; [reflexivity|].
  cbn. now rewrite IH.
Qed.

Lemma frame_from_nth (cells : list (Cell * Cell)) :
  forall i k g l, nth_error cells k = Some (g, l) ->
                  In (mkStrRow (i + k) g l) (frame_from i cells).
Proof.
  induction cells as [|[g' l'] cells IH]; intros i k g l H.
  - now destruct k.
  - destruct k as [|k]; cbn in H.
    + injection H as -> ->. left. now rewrite Nat.add_0_r.
    + right. replace (i + S k)%nat with (S i + k)%nat by lia. now apply IH.
Qed.

Lemma assign_index (date : string) (df : list StrRow) (out : list Row) :
  assign df date = inr out -> map index out = map s_index df.
Proof.
  intros H. apply assign_converted in H.
  induction H as [|r o df out (Hi & _) _ IH]; [reflexivity|].
  cbn. now rewrite Hi, IH.
Qed.

(** Filtering a frame whose index labels are distinct keeps them so. *)
Lemma filter_keeps_index_distinct (keep : StrRow -> bool)
    (frame : list StrRow) :
  NoDup (map s_index frame) -> NoDup (map s_index (filter keep frame)).
Proof.
  induction frame as [|r frame IH]; cbn; [trivial|].
  intros H. inversion H as [|? ? Hr Hrest]; subst.
  destruct (keep r); cbn; [|now apply IH].
  constructor; [|now apply IH].
  intros Hin. apply Hr. apply in_map_iff in Hin as (r' & Hr' & Hin).
  apply filter_In in Hin as [Hin _]. apply in_map_iff. now exists r'.
Qed.

(** X5: no accepted row is lost or written twice.  When the conversion
    succeeds and the index sort returns a sorting indexer, the output
    holds exactly one row for every sheet row whose identifier passes
    [str.isdigit] and whose status is "LFL" or "Non-LFL", and no other
    row. *)
Theorem accepted_rows_all_written_once argsort (cells : list (Cell * Cell))
    (latest : string) (df : list Row) :
  assign (row_filter (frame_of_sheet cells)) latest = inr df ->
  argsort_ok (map center_id df) (argsort (map center_id df)) = true ->
  exists out,
    transform argsort (frame_of_sheet cells) latest = inr out
    /\ NoDup (map index out)
    /\ forall i,
         In i (map index out) <->
         exists id st,
           nth_error cells i = Some (Some id, Some st)
           /\ str_isdigit id = true
           /\ (st = "LFL" \/ st = "Non-LFL")%string.
Proof.
  intros Ha Hok.
  destruct (sort_values_sorted argsort df Hok) as (out & Hs & Hperm & _).
  exists out. split; [unfold transform; now rewrite Ha|].
  pose proof (assign_index _ _ _ Ha) as Hidx.
  rewrite getitem_mask_filter in Hidx.
  assert (HP : Permutation (map s_index (filter passes (frame_of_sheet cells)))
                           (map index out)).
  { rewrite <- Hidx. now apply Permutation_map. }
  split.
  - apply (Permutation_NoDup HP). apply filter_keeps_index_distinct.
    unfold frame_of_sheet. rewrite frame_from_index. apply seq_NoDup.
  - intros i. split.
    + intros Hi. apply (Permutation_in _ (Permutation_sym HP)) in Hi.
      apply in_map_iff in Hi as (r & <- & Hr).
      apply filter_In in Hr as [Hr Hp].
      apply frame_of_sheet_In in Hr.
      apply passes_inv in Hp as (id & st & Hid & Hst & Hd & Hs').
      exists id, st. rewrite Hr, Hid, Hst. now repeat split.
    + intros (id & st & Hn & Hd & Hs').
      apply (Permutation_in _ HP). apply in_map_iff.
      exists (mkStrRow i (Some id) (Some st)). split; [reflexivity|].
      apply filter_In. split.
      * apply (frame_from_nth cells 0 i _ _ Hn).
      * unfold passes. cbn. rewrite Hd.
        destruct Hs' as [-> | ->]; reflexivity.
Qed.

Lemma accepted_rows_all_written_once_witness :
  exists out,
    transform npy_aquicksort (frame_of_sheet scenario_sheet) "2023-06-15"
    = inr out
    /\ NoDup (map index out)
    /\ forall i,
         In i (map index out) <->
         exists id st,
           nth_error scenario_sheet i = Some (Some id, Some st)
           /\ str_isdigit id = true
           /\ (st = "LFL" \/ st = "Non-LFL")%string.
Proof.
  apply (accepted_rows_all_written_once npy_aquicksort scenario_sheet
           "2023-06-15"
           [mkRow 0 12 (Some "LFL") "2023-06-15";
            mkRow 1 7 (Some "Non-LFL") "2023-06-15"]%string).
  - vm_compute. reflexivity.
  - vm_compute. reflexivity.
Defined.

Lemma all_decimal_isdigit (s : string) :
  all_chars is_decimal s = true -> all_chars char_isdigit s = true.
Proof.
  induction s as [|c r IH]; [reflexivity|]. cbn [all_chars].
  intros H. apply andb_true_iff in H as [Hc Hr].
  now rewrite (is_decimal_isdigit _ Hc), IH.
Qed.

(** X6: an identifier written with decimal digits whose value is at most
    32767 is converted to exactly that value, and leading zeros do not
    change it. *)
Theorem identifier_within_int16_is_kept (id : string) :
  id <> EmptyString ->
  all_chars is_decimal id = true ->
  Z.of_nat (String.length id) <= max_str_digits ->
  decimal_value id <= INT16_MAX ->
  SHORT_setitem id = inr (decimal_value id)
  /\ decimal_value (String "0" id) = decimal_value id.
Proof.
  intros Hne Hdec Hlen Hmax. split; [|reflexivity].
  assert (Hd : str_isdigit id = true).
  { unfold str_isdigit. destruct id; [congruence|].
    now apply all_decimal_isdigit. }
  rewrite (SHORT_setitem_isdigit _ Hd), Hdec.
  destruct (Z.ltb_spec max_str_digits (Z.of_nat (String.length id))); [lia|].
  pose proof (decimal_value_nonneg _ Hdec).
  destruct (Z.leb_spec (decimal_value id) LONG_MAX);
    [|unfold LONG_MAX, INT16_MAX in *; lia].
  f_equal. apply to_int16_small. unfold INT16_MIN, INT16_MAX in *. lia.
Qed.

Lemma identifier_within_int16_is_kept_witness :
  SHORT_setitem "007" = inr 7
  /\ decimal_value "0007" = decimal_value "007".
Proof.
  apply (identifier_within_int16_is_kept "007");
    [discriminate | reflexivity | vm_compute; discriminate
    | vm_compute; discriminate].
Defined.

(** X7: an identifier that holds a superscript digit passes
    [str.isdigit] but cannot be converted: when its row also has an
    accepted status, the run fails after the read with an exception that
    [main] does not handle, and nothing is written. *)
Theorem superscript_digit_identifier_is_fatal
    argsort env src dst latest file cells i id st :
  py_max (filter is_date (glob_star env src)) = inr latest ->
  item0 (map (path_join (path_join src latest))
             (glob_star env (path_join src latest))) = inr file ->
  read_excel_file env file = inr cells ->
  In (mkStrRow i (Some id) (Some st)) (frame_of_sheet cells) ->
  passes (mkStrRow i (Some id) (Some st)) = true ->
  all_chars is_decimal id = false ->
  SHORT_setitem id = inl ValueError
  /\ exists e,
       process argsort env src dst
       = (warnings src (glob_star env src) ++ [ReadExcel file], inl e)
       /\ is_DataProcessingError e = false.
Proof.
  intros Hmax Hfile Hread Hin Hp Hdec.
  assert (Hd : str_isdigit id = true).
  { apply passes_inv in Hp as (id' & st' & Hid & _ & Hd & _).
    cbn in Hid. now injection Hid as <-. }
  pose proof (SHORT_setitem_isdigit _ Hd) as Hs. rewrite Hdec in Hs.
  split; [exact Hs|].
  assert (Hf : In (mkStrRow i (Some id) (Some st))
                  (row_filter (frame_of_sheet cells))).
  { rewrite getitem_mask_filter. apply filter_In. now split. }
  destruct (assign_fails latest _ _ id ValueError Hf eq_refl Hs) as [e Ha].
  assert (Ht : transform argsort (frame_of_sheet cells) latest = inl e).
  { unfold transform. now rewrite Ha. }
  exists e. split.
  - rewrite process_eq. unfold process_stages. rewrite Hmax. cbv zeta.
    now rewrite Hfile, Hread, Ht.
  - now apply transform_error in Ht.
Qed.

Lemma superscript_digit_identifier_is_fatal_witness :
  str_isdigit superscript_id = true
  /\ SHORT_setitem superscript_id = inl ValueError
  /\ exists e,
       process npy_aquicksort superscript_sheet "data" "out.csv"
       = ([ReadExcel "data/2023-06-15/gyms.xlsx"], inl e)
       /\ is_DataProcessingError e = false.
Proof.
  split; [reflexivity|].
  apply (superscript_digit_identifier_is_fatal npy_aquicksort
           superscript_sheet "data" "out.csv" "2023-06-15"
           "data/2023-06-15/gyms.xlsx"
           [(Some superscript_id, Some "LFL"%string)] 0%nat
           superscript_id "LFL" eq_refl eq_refl eq_refl
           (or_introl eq_refl) eq_refl eq_refl).
Defined.

(** X8: a sheet none of whose rows passes the filter is no error: the run
    succeeds and writes an output without rows. *)
Theorem no_accepted_row_gives_empty_output
    argsort env src dst latest file cells :
  py_max (filter is_date (glob_star env src)) = inr latest ->
  item0 (map (path_join (path_join src latest))
             (glob_star env (path_join src latest))) = inr file ->
  read_excel_file env file = inr cells ->
  (forall r, In r (frame_of_sheet cells) -> passes r = false) ->
  argsort [] = [] ->
  open_error env dst = None ->
  process argsort env src dst
  = (warnings src (glob_star env src) ++ [ReadExcel file; ToCsv dst []],
     inr tt).
Proof.
  intros Hmax Hfile Hread Hnone Hsort Hopen.
  assert (Hf : row_filter (frame_of_sheet cells) = []).
  { rewrite getitem_mask_filter.
    induction (frame_of_sheet cells) as [|r l IH]; [reflexivity|].
    cbn. rewrite (Hnone r) by now left.
    apply IH. intros r' Hr'. apply Hnone. now right. }
  rewrite process_eq. unfold process_stages. rewrite Hmax. cbv zeta.
  rewrite Hfile, Hread. unfold transform, sort_values. rewrite Hf. cbn.
  rewrite Hsort. cbn. now rewrite Hopen.
Qed.

Lemma no_accepted_row_gives_empty_output_witness :
  process npy_aquicksort rejected_sheet "data" "out.csv"
  = ([ReadExcel "data/2023-06-15/gyms.xlsx"; ToCsv "out.csv" []]%string,
     inr tt).
Proof.
  apply (no_accepted_row_gives_empty_output npy_aquicksort rejected_sheet
           "data" "out.csv" "2023-06-15" "data/2023-06-15/gyms.xlsx"
           [(Some "abc", Some "LFL"); (Some "3", Some "lfl");
            (None, None)]%string eq_refl eq_refl eq_refl);
    [|reflexivity|reflexivity].
  intros r [<-|[<-|[<-|[]]]]; reflexivity.
Defined.

(** ** The names the validator accepts *)

Lemma length_append (a b : string) :
  String.length (a ++ b)%string = (String.length a + String.length b)%nat.
Proof. induction a as [|c a IH]; [reflexivity|]. cbn. now rewrite IH. Qed.

Lemma all_chars_append (p : ascii -> bool) (a b : string) :
  all_chars p (a ++ b)%string = all_chars p a && all_chars p b.
Proof.
  induction a as [|c a IH]; [reflexivity|]. cbn. rewrite IH.
  now rewrite andb_assoc.
Qed.

Lemma texts_are_short_ok : texts_are_short = true.
Proof. vm_compute. reflexivity. Qed.

Lemma in_Z_range (lo : Z) (n : nat) (v : Z) :
  lo <= v < lo + Z.of_nat n -> In v (Z_range lo n).
Proof.
  intros H. unfold Z_range. apply in_map_iff.
  exists (Z.to_nat (v - lo)). split; [lia|]. apply in_seq. lia.
Qed.

Lemma month_text_short (m : Z) (ms : string) :
  1 <= m <= 12 -> In ms (month_texts m) -> short_text ms = true.
Proof.
  intros Hm Hms. pose proof texts_are_short_ok as H.
  unfold texts_are_short in H. apply andb_true_iff in H as [H _].
  rewrite forallb_forall in H.
  specialize (H m (in_Z_range 1 12 m ltac:(cbn; lia))).
  rewrite forallb_forall in H. now apply H.
Qed.

Lemma day_text_short (d : Z) (ds : string) :
  1 <= d <= 31 -> In ds (day_texts d) -> short_text ds = true.
Proof.
  intros Hd Hds. pose proof texts_are_short_ok as H.
  unfold texts_are_short in H. apply andb_true_iff in H as [_ H].
  rewrite forallb_forall in H.
  specialize (H d (in_Z_range 1 31 d ltac:(cbn; lia))).
  rewrite forallb_forall in H. now apply H.
Qed.

(** X9: a name the validator accepts has between eight and ten
    characters, each of them a decimal digit, a hyphen or a space: a
    name with a time of day, a suffix or any other character is never
    taken for a dated folder. *)
Theorem accepted_names_are_short_and_plain (s : string) :
  is_date s = true ->
  (8 <= String.length s <= 10)%nat /\ all_chars name_char s = true.
Proof.
  intros H. apply is_date_true_iff in H as (y & m & d & H & _).
  unfold format_regex_match in H.
  destruct (year_group s) as [[y' r1]|] eqn:Hy; [|discriminate].
  destruct (month_day_groups r1) as [[[m' d'] rest]|] eqn:Hmd; [|discriminate].
  assert (E : m' = m /\ d' = d /\ rest = EmptyString)
    by (repeat split; congruence).
  destruct E as (-> & -> & ->). clear H.
  apply month_day_groups_inv in Hmd as (ms & ds & -> & Hms & Hds & Hm & Hd).
  apply (month_text_short m ms Hm) in Hms.
  apply (day_text_short d ds Hd) in Hds.
  unfold short_text in Hms, Hds.
  apply andb_true_iff in Hms as [Hms Hmc].
  apply andb_true_iff in Hms as [Hm1 Hm2].
  apply andb_true_iff in Hds as [Hds Hdc].
  apply andb_true_iff in Hds as [Hd1 Hd2].
  apply Nat.leb_le in Hm1, Hm2, Hd1, Hd2.
  unfold year_group in Hy.
  destruct s as [|a [|b [|c [|e s']]]]; try discriminate.
  destruct (is_decimal a) eqn:Ha; [|discriminate].
  destruct (is_decimal b) eqn:Hb; [|discriminate].
  destruct (is_decimal c) eqn:Hc; [|discriminate].
  destruct (is_decimal e) eqn:He; [|discriminate].
  cbv beta iota delta [andb] in Hy.
  assert (Hs : s' = ("-" ++ ms ++ "-" ++ ds)%string) by congruence.
  subst s'. split.
  - cbn [String.length String.append]. rewrite length_append.
    cbn [String.length String.append]. lia.
  - cbn [all_chars String.append]. unfold name_char at 1 2 3 4.
    rewrite Ha, Hb, Hc, He. cbn [orb andb].
    rewrite all_chars_append. cbn [all_chars String.append].
    now rewrite Hmc, Hdc.
Qed.

Lemma accepted_names_are_short_and_plain_witness :
  (8 <= String.length "2023-1- 5" <= 10)%nat
  /\ all_chars name_char "2023-1- 5" = true.
Proof.
  apply (accepted_names_are_short_and_plain "2023-1- 5"). reflexivity.
Defined.

(* ================================================================== *)
(** ** The index sort on short columns

    Up to seventeen rows [aquicksort_] never partitions: the whole column
    is sorted by its insertion sort. *)

Lemma geti_middle (l1 l2 : list nat) (x : nat) :
  geti (l1 ++ x :: l2) (List.length l1) = x.
Proof. unfold geti. apply nth_middle. Qed.

Lemma seti_middle (l1 l2 : list nat) (x y : nat) :
  seti (l1 ++ x :: l2) (List.length l1) y = l1 ++ y :: l2.
Proof. induction l1 as [|z l1 IH]; [reflexivity|]. cbn. now rewrite IH. Qed.

Lemma insert_back_length (v : list Z) (x : nat) (sorted : list nat) :
  List.length (insert_back v x sorted) = S (List.length sorted).
Proof.
  induction sorted as [|y rest IH]; [reflexivity|].
  cbn. destruct (key v x <? key v y); cbn; [now rewrite IH | reflexivity].
Qed.

(** The shifting loop followed by the store of the new position. *)
Lemma shift_then_store (v : list Z) (x : nat) (sorted : list nat) :
  forall fuel h rest,
    (List.length sorted < fuel)%nat ->
    let r := shift_loop fuel v (rev sorted ++ h :: rest) (key v x) 0
                        (List.length sorted) in
    seti (fst r) (snd r) x = rev (insert_back v x sorted) ++ rest.
Proof.
  induction sorted as [|y sorted IH]; intros fuel h rest Hf;
    (destruct fuel as [|fuel]; [cbn in Hf; lia|]).
  - reflexivity.
  - cbn [shift_loop List.length insert_back].
    replace (0 <? S (List.length sorted))%nat with true
      by (symmetry; apply Nat.ltb_lt; lia).
    replace (S (List.length sorted) - 1)%nat with (List.length sorted) by lia.
    assert (Ea : rev (y :: sorted) ++ h :: rest
                 = rev sorted ++ y :: h :: rest)
      by (cbn [rev]; now rewrite <- app_assoc).
    assert (Ed : deref v (rev (y :: sorted) ++ h :: rest) (List.length sorted)
                 = key v y).
    { unfold deref, key. rewrite Ea.
      rewrite <- (length_rev sorted) at 1. now rewrite geti_middle. }
    rewrite Ed. cbn [andb].
    destruct (key v x <? key v y).
    + assert (Es : seti (rev (y :: sorted) ++ h :: rest)
                        (S (List.length sorted))
                        (geti (rev (y :: sorted) ++ h :: rest)
                              (List.length sorted))
                   = rev sorted ++ y :: (y :: rest)).
      { rewrite Ea at 2. rewrite <- (length_rev sorted) at 2.
        rewrite geti_middle.
        replace (S (List.length sorted))
          with (List.length (rev (y :: sorted)))
          by (rewrite length_rev; reflexivity).
        rewrite seti_middle. cbn [rev]. now rewrite <- app_assoc. }
      rewrite Es.
      specialize (IH fuel y (y :: rest) ltac:(cbn in Hf; lia)).
      cbv zeta in IH. rewrite IH. cbn [rev]. now rewrite <- app_assoc.
    + cbn [fst snd].
      replace (S (List.length sorted))
        with (List.length (rev (y :: sorted)))
        by (rewrite length_rev; reflexivity).
      rewrite seti_middle. cbn [rev]. now rewrite <- !app_assoc.
Qed.

(** The insertion loop on an array whose first part is sorted. *)
Lemma insertion_loop_spec (v : list Z) :
  forall todo sorted fuel,
    sorted <> [] ->
    (List.length todo <= fuel)%nat ->
    insertion_loop fuel v (rev sorted ++ todo) 0 (List.length sorted)
                   (List.length sorted + List.length todo - 1)
    = rev (fold_left (fun acc x => insert_back v x acc) todo sorted).
Proof.
  induction todo as [|x todo IH]; intros sorted fuel Hne Hf.
  - cbn [fold_left]. rewrite app_nil_r.
    destruct fuel as [|fuel]; [reflexivity|]. cbn [insertion_loop].
    replace (List.length sorted <=? List.length sorted + List.length (@nil nat) - 1)%nat
      with false; [reflexivity|].
    symmetry. apply Nat.leb_gt. destruct sorted; [congruence|]. cbn. lia.
  - destruct fuel as [|fuel]; [cbn in Hf; lia|].
    cbn [insertion_loop fold_left].
    replace (List.length sorted
             <=? List.length sorted + List.length (x :: todo) - 1)%nat
      with true by (symmetry; apply Nat.leb_le; cbn; lia).
    assert (Eg : geti (rev sorted ++ x :: todo) (List.length sorted) = x).
    { rewrite <- (length_rev sorted). apply geti_middle. }
    rewrite Eg.
    pose proof (shift_then_store v x sorted
                  (List.length (rev sorted ++ x :: todo)) x todo) as Hs.
    cbv zeta in Hs. fold (key v x).
    destruct (shift_loop _ v (rev sorted ++ x :: todo) (key v x) 0
                         (List.length sorted)) as [a' pj].
    cbn [fst snd] in Hs. rewrite Hs.
    2:{ rewrite length_app, length_rev. cbn. lia. }
    specialize (IH (insert_back v x sorted) fuel).
    rewrite insert_back_length in IH.
    replace (List.length sorted + List.length (x :: todo) - 1)%nat
      with (S (List.length sorted) + List.length todo - 1)%nat
      by (cbn; lia).
    apply IH.
    + destruct sorted as [|y s]; cbn; [discriminate|].
      destruct (key v x <? key v y); discriminate.
    + cbn in Hf. lia.
Qed.

Lemma npy_aquicksort_short (v : list Z) :
  (1 <= List.length v <= 17)%nat ->
  npy_aquicksort v
  = rev (fold_left (fun acc x => insert_back v x acc)
                   (seq 1 (List.length v - 1)) [0%nat]).
Proof.
  intros Hn. unfold npy_aquicksort. cbv zeta.
  set (n := List.length v) in *.
  cbn [sort_loop].
  assert (Hd : (depth_limit n <? 0) = false).
  { apply Z.ltb_ge. unfold depth_limit.
    pose proof (Z.log2_nonneg (Z.of_nat n)). lia. }
  rewrite Hd, length_seq.
  destruct n as [|m] eqn:En; [lia|].
  cbn [split_loop].
  replace (SMALL_QUICKSORT <? S m - 1 - 0)%nat with false
    by (symmetry; apply Nat.ltb_ge; unfold SMALL_QUICKSORT; lia).
  unfold insertion_sort. rewrite length_seq.
  replace (S m - 1)%nat with m by lia.
  change (seq 0 (S m)) with (rev [0%nat] ++ seq 1 m).
  pose proof (insertion_loop_spec v (seq 1 m) [0%nat] (S m)) as H.
  rewrite length_seq in H. cbn [List.length] in H.
  replace (1 + m - 1)%nat with m in H by lia.
  rewrite H; [reflexivity | discriminate | lia].
Qed.

Lemma insert_back_Permutation (v : list Z) (x : nat) (sorted : list nat) :
  Permutation (x :: sorted) (insert_back v x sorted).
Proof.
  induction sorted as [|y rest IH]; [apply Permutation_refl|].
  cbn. destruct (key v x <? key v y); [|apply Permutation_refl].
  apply (Permutation_trans (perm_swap y x rest)). now constructor.
Qed.

Lemma insert_back_descending (v : list Z) (x : nat) (sorted : list nat) :
  StronglySorted (fun a b => by_key_then_position v b a) sorted ->
  Forall (fun z => (z < x)%nat) sorted ->
  StronglySorted (fun a b => by_key_then_position v b a)
                 (insert_back v x sorted).
Proof.
  induction sorted as [|y rest IH]; intros Hs Hx.
  - repeat constructor.
  - apply StronglySorted_inv in Hs as [Hs Hy].
    inversion Hx as [|? ? Hyx Hrest]; subst.
    cbn [insert_back]. destruct (Z.ltb_spec (key v x) (key v y)) as [L|G].
    + constructor; [now apply IH|].
      apply Forall_forall. intros z Hz.
      apply (Permutation_in _ (Permutation_sym (insert_back_Permutation v x rest)))
        in Hz.
      destruct Hz as [<-|Hz]; [now left|].
      rewrite Forall_forall in Hy. now apply Hy.
    + constructor; [now constructor|].
      constructor.
      * unfold by_key_then_position. lia.
      * rewrite Forall_forall in Hy, Hrest. apply Forall_forall.
        intros z Hz. specialize (Hy z Hz). specialize (Hrest z Hz).
        unfold by_key_then_position in *. lia.
Qed.

Lemma fold_insert_back (v : list Z) :
  forall m k sorted,
    StronglySorted (fun a b => by_key_then_position v b a) sorted ->
    Permutation sorted (seq 0 k) ->
    StronglySorted (fun a b => by_key_then_position v b a)
      (fold_left (fun acc x => insert_back v x acc) (seq k m) sorted)
    /\ Permutation
         (fold_left (fun acc x => insert_back v x acc) (seq k m) sorted)
         (seq 0 (k + m)).
Proof.
  induction m as [|m IH]; intros k sorted Hs Hp.
  - cbn. now rewrite Nat.add_0_r.
  - cbn [seq fold_left].
    replace (k + S m)%nat with (S k + m)%nat by lia.
    apply IH.
    + apply insert_back_descending; [exact Hs|].
      apply Forall_forall. intros z Hz.
      apply (Permutation_in _ Hp) in Hz. apply in_seq in Hz. lia.
    + apply (Permutation_trans
               (Permutation_sym (insert_back_Permutation v k sorted))).
      rewrite seq_S. cbn [Nat.add].
      apply (Permutation_trans (perm_skip k Hp)).
      apply Permutation_cons_append.
Qed.

Lemma StronglySorted_snoc {A} (R : A -> A -> Prop) (l : list A) (x : A) :
  StronglySorted R l -> Forall (fun y => R y x) l ->
  StronglySorted R (l ++ [x]).
Proof.
  induction 1 as [|a l Hs IH Ha]; intros Hx; cbn.
  - repeat constructor.
  - inversion Hx; subst. constructor; [now apply IH|].
    apply Forall_app. split; [exact Ha | now repeat constructor].
Qed.

Lemma StronglySorted_rev {A} (R : A -> A -> Prop) (l : list A) :
  StronglySorted (fun a b => R b a) l -> StronglySorted R (rev l).
Proof.
  induction 1 as [|a l Hs IH Ha]; cbn; [constructor|].
  apply StronglySorted_snoc; [exact IH | now apply Forall_rev].
Qed.

(** On a column of at most seventeen values the index sort returns a
    permutation of the positions, ordered by value and, among equal
    values, by position. *)
Lemma npy_aquicksort_short_stable (v : list Z) :
  (List.length v <= 17)%nat ->
  Permutation (npy_aquicksort v) (seq 0 (List.length v))
  /\ StronglySorted (by_key_then_position v) (npy_aquicksort v).
Proof.
  intros Hn. destruct v as [|z v'] eqn:Ev.
  - split; [apply Permutation_refl | constructor].
  - rewrite <- Ev in *. assert (H1 : (1 <= List.length v <= 17)%nat)
      by (subst v; cbn in *; lia).
    rewrite (npy_aquicksort_short v H1).
    destruct (fold_insert_back v (List.length v - 1) 1 [0%nat]) as [Hs Hp].
    + repeat constructor.
    + apply Permutation_refl.
    + replace (1 + (List.length v - 1))%nat with (List.length v) in Hp by lia.
      split.
      * apply (Permutation_trans (Permutation_sym (Permutation_rev _))).
        exact Hp.
      * now apply StronglySorted_rev.
Qed.

Lemma sorted_by_key (v : list Z) (idx : list nat) :
  StronglySorted (by_key_then_position v) idx ->
  sorted_b (map (fun i => nth i v 0) idx) = true.
Proof.
  induction 1 as [|a l Hs IH Ha]; [reflexivity|].
  destruct l as [|b l]; [reflexivity|].
  cbn [map sorted_b] in *. rewrite IH, andb_true_r.
  inversion Ha as [|? ? Hab _]; subst.
  apply Z.leb_le. unfold by_key_then_position, key in Hab. lia.
Qed.

Lemma Permutation_is_indexer (n : nat) (idx : list nat) :
  Permutation idx (seq 0 n) -> is_indexer n idx = true.
Proof.
  intros Hp. unfold is_indexer. apply andb_true_iff. split.
  - apply Nat.eqb_eq. rewrite (Permutation_length Hp). apply length_seq.
  - apply forallb_forall. intros i Hi. apply existsb_exists.
    exists i. split; [|apply Nat.eqb_refl].
    now apply (Permutation_in _ (Permutation_sym Hp)).
Qed.

Lemma StronglySorted_seq (i n : nat) : StronglySorted lt (seq i n).
Proof.
  revert i. induction n as [|n IH]; intros i; cbn; constructor; [apply IH|].
  apply Forall_forall. intros j Hj. apply in_seq in Hj. lia.
Qed.

Lemma StronglySorted_map_filter {A} (f : A -> nat) (p : A -> bool)
    (l : list A) :
  StronglySorted lt (map f l) -> StronglySorted lt (map f (filter p l)).
Proof.
  induction l as [|x l IH]; cbn; [trivial|].
  intros H. apply StronglySorted_inv in H as [Hs Hx].
  destruct (p x); cbn; [|now apply IH].
  constructor; [now apply IH|].
  rewrite Forall_forall in Hx. apply Forall_forall. intros y Hy.
  apply Hx. apply in_map_iff in Hy as (z & <- & Hz).
  apply filter_In in Hz as [Hz _]. now apply in_map.
Qed.

Lemma StronglySorted_nth (l : list nat) (d : nat) :
  StronglySorted lt l ->
  forall i j, (i < j)%nat -> (j < List.length l)%nat ->
              (nth i l d < nth j l d)%nat.
Proof.
  induction 1 as [|a l Hs IH Ha]; intros i j Hij Hj; [cbn in Hj; lia|].
  destruct j as [|j]; [lia|]. cbn in Hj.
  destruct i as [|i]; cbn.
  - rewrite Forall_forall in Ha. apply Ha. apply nth_In. lia.
  - apply IH; lia.
Qed.

Lemma ties_in_order_take (df : list Row) (idx : list nat) :
  StronglySorted lt (map index df) ->
  StronglySorted (by_key_then_position (map center_id df)) idx ->
  Forall (fun i => (i < List.length df)%nat) idx ->
  ties_in_order (map (fun i => nth i df no_row) idx) = true.
Proof.
  intros Hidx Hs. induction Hs as [|a l Hs IH Ha]; intros Hb; [reflexivity|].
  inversion Hb as [|? ? Hba Hbl]; subst.
  cbn [map ties_in_order]. rewrite (IH Hbl), andb_true_r.
  apply forallb_forall. intros r Hr.
  apply in_map_iff in Hr as (b & <- & Hbin).
  rewrite Forall_forall in Ha, Hbl.
  specialize (Ha b Hbin). specialize (Hbl b Hbin).
  unfold by_key_then_position, key in Ha.
  change 0 with (center_id no_row) in Ha.
  rewrite !map_nth in Ha.
  destruct Ha as [Hlt|[Heq Hab]].
  - replace (center_id (nth a df no_row) =? center_id (nth b df no_row))
      with false; [reflexivity|].
    symmetry. apply Z.eqb_neq. lia.
  - apply orb_true_iff. right. apply Nat.ltb_lt.
    rewrite <- !(map_nth index df no_row).
    apply StronglySorted_nth; [exact Hidx | exact Hab|].
    now rewrite length_map.
Qed.

(** X10: when at most seventeen rows survive the filter, the index sort
    is its insertion sort, and the output is sorted by center_id with
    the rows of equal identifier in the order they had in the sheet: no
    assumption on the sort is needed, and ties move only in longer
    tables. *)
Theorem short_tables_are_sorted_with_ties_in_order
    (cells : list (Cell * Cell)) (latest : string) (df : list Row) :
  assign (row_filter (frame_of_sheet cells)) latest = inr df ->
  (List.length df <= 17)%nat ->
  exists out,
    transform npy_aquicksort (frame_of_sheet cells) latest = inr out
    /\ Permutation df out
    /\ Sorted Z.le (map center_id out)
    /\ ties_in_order out = true.
Proof.
  intros Ha Hn.
  set (keys := map center_id df).
  assert (Hk : (List.length keys <= 17)%nat)
    by (unfold keys; now rewrite length_map).
  destruct (npy_aquicksort_short_stable keys Hk) as [Hp Hs].
  unfold keys in Hp at 2. rewrite length_map in Hp.
  assert (Hok : argsort_ok keys (npy_aquicksort keys) = true).
  { unfold argsort_ok. apply andb_true_iff. split.
    - unfold keys at 1. rewrite length_map.
      now apply Permutation_is_indexer.
    - now apply sorted_by_key. }
  destruct (sort_values_sorted npy_aquicksort df Hok)
    as (out & Hsort & Hperm & Hsorted).
  exists out. split; [unfold transform; now rewrite Ha|].
  split; [exact Hperm|]. split; [exact Hsorted|].
  assert (Hb : Forall (fun i => (i < List.length df)%nat)
                      (npy_aquicksort keys)).
  { apply Forall_forall. intros i Hi.
    apply (Permutation_in _ Hp) in Hi. apply in_seq in Hi. lia. }
  unfold sort_values in Hsort. fold keys in Hsort.
  rewrite (take_in_bounds df no_row _ Hb) in Hsort.
  injection Hsort as <-.
  apply ties_in_order_take; [|exact Hs|exact Hb].
  rewrite (assign_index _ _ _ Ha), getitem_mask_filter.
  apply StronglySorted_map_filter.
  unfold frame_of_sheet. rewrite frame_from_index. apply StronglySorted_seq.
Qed.

Lemma short_tables_are_sorted_with_ties_in_order_witness :
  exists out,
    transform npy_aquicksort
      (frame_of_sheet [(Some "7", Some "LFL"); (Some "3", Some "LFL");
                       (Some "7", Some "Non-LFL")]%string) "2023-06-15"
    = inr out
    /\ Permutation
         [mkRow 0 7 (Some "LFL") "2023-06-15";
          mkRow 1 3 (Some "LFL") "2023-06-15";
          mkRow 2 7 (Some "Non-LFL") "2023-06-15"]%string out
    /\ Sorted Z.le (map center_id out)
    /\ ties_in_order out = true.
Proof.
  apply (short_tables_are_sorted_with_ties_in_order
           [(Some "7", Some "LFL"); (Some "3", Some "LFL");
            (Some "7", Some "Non-LFL")]%string "2023-06-15").
  - vm_compute. reflexivity.
  - cbn. lia.
Defined.

(* ================================================================== *)
(** ** The index sort on every column

    [aquicksort_] returns a sorting permutation whatever the column is:
    each of its three parts (the partition around the median of three,
    the insertion sort of a short partition and the heapsort of a
    partition nested too deep) moves entries only inside the partition
    it works on, and the loop around them keeps the array ordered
    between any two places that are not in the same pending partition. *)

Section IndexSort.
Variable v : list Z.
Local Open Scope nat_scope.

Lemma seti_length (a : list nat) (i x : nat) :
  List.length (seti a i x) = List.length a.
Proof.
  revert i. induction a as [|y a IH]; intros [|i]; cbn; trivial.
  now rewrite IH.
Qed.

Lemma geti_seti_eq (a : list nat) (i x : nat) :
  i < List.length a -> geti (seti a i x) i = x.
Proof.
  revert i. induction a as [|y a IH]; intros [|i] H; cbn in *; try lia; trivial.
  apply IH. lia.
Qed.

Lemma geti_seti_neq (a : list nat) (i j x : nat) :
  i <> j -> geti (seti a i x) j = geti a j.
Proof.
  revert i j. induction a as [|y a IH]; intros [|i] [|j] H; cbn; trivial;
    try lia.
  apply IH. lia.
Qed.

Lemma seti_geti (a : list nat) (i : nat) : seti a i (geti a i) = a.
Proof.
  revert i. induction a as [|y a IH]; intros [|i]; cbn; trivial.
  unfold geti in IH. now rewrite IH.
Qed.

Lemma swap_length (a : list nat) (i j : nat) :
  List.length (INTP_SWAP a i j) = List.length a.
Proof. unfold INTP_SWAP. now rewrite !seti_length. Qed.

Lemma geti_swap_r (a : list nat) (i j : nat) :
  j < List.length a -> geti (INTP_SWAP a i j) j = geti a i.
Proof.
  intros H. unfold INTP_SWAP. apply geti_seti_eq. now rewrite seti_length.
Qed.

Lemma geti_swap_l (a : list nat) (i j : nat) :
  i < List.length a -> j < List.length a ->
  geti (INTP_SWAP a i j) i = geti a j.
Proof.
  intros Hi Hj. destruct (Nat.eq_dec i j) as [->|N].
  - now apply geti_swap_r.
  - unfold INTP_SWAP. rewrite geti_seti_neq by lia. now apply geti_seti_eq.
Qed.

Lemma geti_swap_other (a : list nat) (i j k : nat) :
  k <> i -> k <> j -> geti (INTP_SWAP a i j) k = geti a k.
Proof.
  intros Hi Hj. unfold INTP_SWAP. now rewrite !geti_seti_neq by lia.
Qed.

Lemma seti_head_Permutation (t : list nat) (h : nat) :
  forall j, j < List.length t ->
  Permutation (geti t j :: seti t j h) (h :: t).
Proof.
  induction t as [|y t IH]; intros [|j] H; cbn in *; try lia.
  - apply perm_swap.
  - unfold geti in *. cbn.
    rewrite perm_swap. rewrite (IH j) by lia. apply perm_swap.
Qed.

Lemma swap_Permutation_lt (a : list nat) :
  forall i j, i < j -> j < List.length a -> Permutation a (INTP_SWAP a i j).
Proof.
  unfold INTP_SWAP.
  induction a as [|y a IH]; intros [|i] [|j] Hij Hj; cbn in *; try lia.
  - unfold geti. cbn. symmetry. apply seti_head_Permutation. lia.
  - unfold geti in *. cbn. apply perm_skip. apply IH; lia.
Qed.

Lemma swap_Permutation (a : list nat) (i j : nat) :
  i < List.length a -> j < List.length a -> Permutation a (INTP_SWAP a i j).
Proof.
  intros Hi Hj. destruct (Nat.lt_trichotomy i j) as [H|[->|H]].
  - now apply swap_Permutation_lt.
  - unfold INTP_SWAP. now rewrite !seti_geti.
  - assert (E : INTP_SWAP a i j = INTP_SWAP a j i).
    { apply (nth_ext _ _ 0 0); [now rewrite !swap_length|].
      intros k Hk. rewrite swap_length in Hk. fold (geti (INTP_SWAP a i j) k).
      fold (geti (INTP_SWAP a j i) k).
      destruct (Nat.eq_dec k i) as [->|Nki].
      - now rewrite geti_swap_l, geti_swap_r.
      - destruct (Nat.eq_dec k j) as [->|Nkj].
        + now rewrite geti_swap_l, geti_swap_r.
        + now rewrite !geti_swap_other. }
    rewrite E. now apply swap_Permutation_lt.
Qed.


Ltac arr_len := repeat (rewrite swap_length || rewrite seti_length); lia.

Ltac arr :=
  repeat first
    [ rewrite swap_length
    | rewrite seti_length
    | rewrite geti_swap_r by arr_len
    | rewrite geti_swap_l by arr_len
    | rewrite geti_swap_other by lia
    | rewrite geti_seti_eq by arr_len
    | rewrite geti_seti_neq by lia ].

Lemma shuffled_refl (lo hi : nat) (a : list nat) : shuffled lo hi a a.
Proof.
  repeat split; trivial. intros i Hi. now exists i.
Qed.

Lemma shuffled_trans (lo hi : nat) (a b c : list nat) :
  shuffled lo hi a b -> shuffled lo hi b c -> shuffled lo hi a c.
Proof.
  intros (L1 & P1 & F1 & M1) (L2 & P2 & F2 & M2). repeat split.
  - congruence.
  - now rewrite P1.
  - intros k Hk. now rewrite F2, F1.
  - intros i Hi. destruct (M2 i Hi) as (i1 & Hi1 & E1).
    destruct (M1 i1 Hi1) as (i2 & Hi2 & E2). exists i2. split; congruence.
Qed.

Lemma shuffled_mono (lo hi lo' hi' : nat) (a b : list nat) :
  lo' <= lo -> hi <= hi' -> shuffled lo hi a b -> shuffled lo' hi' a b.
Proof.
  intros Hlo Hhi (L & P & F & M). repeat split; trivial.
  - intros k Hk. apply F. lia.
  - intros i Hi.
    destruct (Nat.lt_ge_cases i lo) as [H|H];
      [exists i; split; [lia | apply F; lia]|].
    destruct (Nat.lt_ge_cases hi i) as [H'|H'];
      [exists i; split; [lia | apply F; lia]|].
    destruct (M i ltac:(lia)) as (i' & Hi' & E). exists i'. split; [lia|exact E].
Qed.

Lemma shuffled_swap (lo hi : nat) (a : list nat) (i j : nat) :
  lo <= i <= hi -> lo <= j <= hi -> hi < List.length a ->
  shuffled lo hi a (INTP_SWAP a i j).
Proof.
  intros Hi Hj Hl. repeat split.
  - apply swap_length.
  - apply swap_Permutation; lia.
  - intros k Hk. apply geti_swap_other; lia.
  - intros k Hk. destruct (Nat.eq_dec k j) as [->|Nj].
    + exists i. split; [lia|]. apply geti_swap_r. lia.
    + destruct (Nat.eq_dec k i) as [->|Ni].
      * exists j. split; [lia|]. apply geti_swap_l; lia.
      * exists k. split; [lia|]. now apply geti_swap_other.
Qed.

Lemma shuffled_length (lo hi : nat) (a b : list nat) :
  shuffled lo hi a b -> List.length b = List.length a.
Proof. now intros (L & _). Qed.

Lemma shuffled_frame (lo hi : nat) (a b : list nat) (k : nat) :
  shuffled lo hi a b -> k < lo \/ hi < k -> deref v b k = deref v a k.
Proof. intros (_ & _ & F & _) Hk. unfold deref. now rewrite F. Qed.

(** The two scans of the partition stop at the first value that is not
    on the side they may pass. *)
Lemma scan_up_spec (a : list nat) (vp : Z) :
  forall fuel pi t,
    pi < t -> t - pi <= fuel -> (vp <= deref v a t)%Z ->
    let r := scan_up fuel v a vp pi in
    pi < r <= t /\ (vp <= deref v a r)%Z
    /\ forall k, pi < k < r -> (deref v a k < vp)%Z.
Proof.
  induction fuel as [|f IH]; intros pi t Hlt Hf Ht; [lia|].
  cbn [scan_up]. destruct (deref v a (S pi) <? vp)%Z eqn:E.
  - apply Z.ltb_lt in E.
    assert (S pi <> t) by (intros <-; lia).
    destruct (IH (S pi) t ltac:(lia) ltac:(lia) Ht) as (Hr & Hv & Hk).
    cbv zeta. split; [lia|]. split; [exact Hv|].
    intros k Hk'. destruct (Nat.eq_dec k (S pi)) as [->|N]; [exact E|].
    apply Hk. lia.
  - apply Z.ltb_ge in E. cbv zeta. split; [lia|]. split; [exact E|].
    intros k Hk. lia.
Qed.

Lemma scan_down_spec (a : list nat) (vp : Z) :
  forall fuel pj t,
    t < pj -> pj - t <= fuel -> (deref v a t <= vp)%Z ->
    let r := scan_down fuel v a vp pj in
    t <= r < pj /\ (deref v a r <= vp)%Z
    /\ forall k, r < k < pj -> (vp < deref v a k)%Z.
Proof.
  induction fuel as [|f IH]; intros pj t Hlt Hf Ht; [lia|].
  cbn [scan_down]. destruct (vp <? deref v a (pred pj))%Z eqn:E.
  - apply Z.ltb_lt in E.
    assert (pred pj <> t) by (intros <-; lia).
    destruct (IH (pred pj) t ltac:(lia) ltac:(lia) Ht) as (Hr & Hv & Hk).
    cbv zeta. split; [lia|]. split; [exact Hv|].
    intros k Hk'. destruct (Nat.eq_dec k (pred pj)) as [->|N]; [exact E|].
    apply Hk. lia.
  - apply Z.ltb_ge in E. cbv zeta. split; [lia|]. split; [exact E|].
    intros k Hk. lia.
Qed.

(** The partition loop between the two sentinels. *)
Lemma hoare_loop_spec (vp : Z) (pl pr : nat) :
  forall fuel a pi pj,
    pl <= pi -> pi < pj -> pj < pr -> pr < List.length a ->
    pj - pi <= fuel ->
    (forall k, pl <= k <= pi -> (deref v a k <= vp)%Z) ->
    (forall k, pj <= k <= pr -> (vp <= deref v a k)%Z) ->
    let r := hoare_loop fuel v a vp pi pj in
    shuffled (S pi) (pj - 1) a (fst r)
    /\ pi < snd r <= pj
    /\ (forall k, pl <= k < snd r -> (deref v (fst r) k <= vp)%Z)
    /\ (forall k, snd r <= k <= pr -> (vp <= deref v (fst r) k)%Z).
Proof.
  induction fuel as [|f IH]; intros a pi pj Hpl Hlt Hpr Hlen Hf Hlo Hhi; [lia|].
  cbn [hoare_loop].
  destruct (scan_up_spec a vp (List.length a) pi pj Hlt ltac:(lia)
              (Hhi pj ltac:(lia))) as (Hi1 & Hi2 & Hi3).
  destruct (scan_down_spec a vp (List.length a) pj pi Hlt ltac:(lia)
              (Hlo pi ltac:(lia))) as (Hj1 & Hj2 & Hj3).
  set (pi' := scan_up (List.length a) v a vp pi) in *.
  set (pj' := scan_down (List.length a) v a vp pj) in *.
  cbv zeta. destruct (pj' <=? pi') eqn:E.
  - apply Nat.leb_le in E. cbn [fst snd].
    split; [apply shuffled_refl|]. split; [lia|]. split.
    + intros k Hk. destruct (Nat.le_gt_cases k pi) as [H|H];
        [apply Hlo; lia | apply Z.lt_le_incl, Hi3; lia].
    + intros k Hk. destruct (Nat.le_gt_cases pj k) as [H|H];
        [apply Hhi; lia|].
      destruct (Nat.eq_dec k pi') as [->|N]; [exact Hi2|].
      apply Z.lt_le_incl, Hj3. lia.
  - apply Nat.leb_gt in E.
    destruct (IH (INTP_SWAP a pi' pj') pi' pj') as (S1 & S2 & S3 & S4);
      try (rewrite ?swap_length; lia).
    + intros k Hk. unfold deref.
      destruct (Nat.eq_dec k pi') as [->|N].
      * rewrite geti_swap_l by lia. exact Hj2.
      * rewrite geti_swap_other by lia.
        destruct (Nat.le_gt_cases k pi) as [H|H];
          [apply Hlo; lia | apply Z.lt_le_incl, Hi3; lia].
    + intros k Hk. unfold deref.
      destruct (Nat.eq_dec k pj') as [->|N].
      * rewrite geti_swap_r by lia. exact Hi2.
      * rewrite geti_swap_other by lia.
        destruct (Nat.le_gt_cases pj k) as [H|H];
          [apply Hhi; lia | apply Z.lt_le_incl, Hj3; lia].
    + split; [|split; [lia|split; assumption]].
      apply (shuffled_trans _ _ _ (INTP_SWAP a pi' pj')).
      * apply shuffled_swap; lia.
      * apply (shuffled_mono (S pi') (pj' - 1)); [lia|lia|exact S1].
Qed.

Lemma half_bounds (x : nat) : 2 * (x / 2) <= x < 2 * (x / 2) + 2.
Proof.
  pose proof (Nat.div_mod_eq x 2) as E.
  pose proof (Nat.mod_upper_bound x 2 ltac:(lia)) as B. lia.
Qed.

Lemma swap_if_less_spec (a : list nat) (p q lo hi : nat) :
  lo <= p <= hi -> lo <= q <= hi -> hi < List.length a ->
  let a' := swap_if_less v a p q in
  shuffled lo hi a a'
  /\ (deref v a' q <= deref v a' p)%Z
  /\ ((geti a' p = geti a p /\ geti a' q = geti a q)
      \/ (geti a' p = geti a q /\ geti a' q = geti a p))
  /\ (forall k, k <> p -> k <> q -> geti a' k = geti a k).
Proof.
  intros Hp Hq Hl. unfold swap_if_less.
  destruct (deref v a p <? deref v a q)%Z eqn:E; cbv zeta.
  - apply Z.ltb_lt in E. split; [apply shuffled_swap; lia|].
    split; [unfold deref in *; arr; lia|].
    split; [right; arr; now split|].
    intros k Hkp Hkq. now arr.
  - apply Z.ltb_ge in E. split; [apply shuffled_refl|].
    split; [exact E|]. split; [left; now split|]. reflexivity.
Qed.

(** The three exchanges that put the median of [pl], [pm], [pr] at [pm]. *)
Lemma median_of_three (a : list nat) (pl pm pr : nat) :
  pl < pm -> pm < pr -> pr < List.length a ->
  let a' := swap_if_less v (swap_if_less v (swap_if_less v a pm pl) pr pm)
                         pm pl in
  shuffled pl pr a a'
  /\ (deref v a' pl <= deref v a' pm)%Z
  /\ (deref v a' pm <= deref v a' pr)%Z.
Proof.
  intros H1 H2 H3. cbv zeta.
  destruct (swap_if_less_spec a pm pl pl pr) as (S1 & O1 & _ & _); try lia.
  set (a1 := swap_if_less v a pm pl) in *. clearbody a1.
  pose proof (shuffled_length _ _ _ _ S1) as L1.
  destruct (swap_if_less_spec a1 pr pm pl pr) as (S2 & O2 & C2 & F2); try lia.
  set (a2 := swap_if_less v a1 pr pm) in *. clearbody a2.
  pose proof (shuffled_length _ _ _ _ S2) as L2.
  destruct (swap_if_less_spec a2 pm pl pl pr) as (S3 & O3 & C3 & F3); try lia.
  set (a3 := swap_if_less v a2 pm pl) in *. clearbody a3.
  split; [exact (shuffled_trans _ _ _ _ _ (shuffled_trans _ _ _ _ _ S1 S2) S3)|].
  split; [exact O3|].
  pose proof (F2 pl ltac:(lia) ltac:(lia)) as E2.
  pose proof (F3 pr ltac:(lia) ltac:(lia)) as E3.
  unfold deref in *. rewrite E3.
  destruct C2 as [[C2 C2']|[C2 C2']], C3 as [[C3 C3']|[C3 C3']];
    rewrite ?C3, ?C3' in *; rewrite ?C2, ?C2', ?E2 in *; lia.
Qed.

(** One partition: the pivot ends at a place strictly inside [pl..pr],
    nothing greater stands before it and nothing smaller after it. *)
Lemma partition_step_spec (a : list nat) (pl pr : nat) :
  pl + 2 <= pr -> pr < List.length a ->
  let r := partition_step v a pl pr in
  shuffled pl pr a (fst r)
  /\ pl < snd r < pr
  /\ (forall k, pl <= k <= snd r ->
      (deref v (fst r) k <= deref v (fst r) (snd r))%Z)
  /\ (forall k, snd r <= k <= pr ->
      (deref v (fst r) (snd r) <= deref v (fst r) k)%Z).
Proof.
  intros Hseg Hlen. unfold partition_step.
  pose proof (half_bounds (pr - pl)) as Hh.
  set (pm := pl + (pr - pl) / 2) in *.
  destruct (median_of_three a pl pm pr ltac:(lia) ltac:(lia) Hlen)
    as (S3 & O1 & O2).
  set (a3 := swap_if_less v _ pm pl) in *. clearbody a3.
  pose proof (shuffled_length _ _ _ _ S3) as L3.
  set (vp := deref v a3 pm) in *.
  set (a4 := INTP_SWAP a3 pm (pr - 1)).
  assert (S4 : shuffled pl pr a3 a4) by (apply shuffled_swap; lia).
  pose proof (shuffled_length _ _ _ _ S4) as L4.
  assert (P1 : deref v a4 (pr - 1) = vp)
    by (unfold a4, deref; arr; reflexivity).
  assert (P2 : (deref v a4 pl <= vp)%Z)
    by (unfold a4, deref; arr; exact O1).
  assert (P3 : (vp <= deref v a4 pr)%Z)
    by (unfold a4, deref; arr; exact O2).
  clearbody a4.
  destruct (hoare_loop_spec vp pl pr (List.length a4) a4 pl (pr - 1))
    as (S5 & Hr & Hlo & Hhi); try lia.
  { intros k Hk. replace k with pl by lia. exact P2. }
  { intros k Hk. destruct (Nat.eq_dec k pr) as [->|N]; [exact P3|].
    replace k with (pr - 1) by lia. lia. }
  destruct (hoare_loop (List.length a4) v a4 vp pl (pr - 1)) as [a5 pi].
  cbn [fst snd] in *.
  pose proof (shuffled_length _ _ _ _ S5) as L5.
  assert (P5 : deref v a5 (pr - 1) = vp)
    by (rewrite (shuffled_frame _ _ _ _ (pr - 1) S5) by lia; exact P1).
  assert (E6 : deref v (INTP_SWAP a5 pi (pr - 1)) pi = vp)
    by (unfold deref; arr; exact P5).
  split; [|split; [lia|split]].
  - apply (shuffled_trans _ _ _ a3 _ S3).
    apply (shuffled_trans _ _ _ a4 _ S4).
    apply (shuffled_trans _ _ _ a5).
    + apply (shuffled_mono (S pl) (pr - 1 - 1)); [lia|lia|exact S5].
    + apply shuffled_swap; lia.
  - intros k Hk. rewrite E6.
    destruct (Nat.eq_dec k pi) as [->|N]; [rewrite E6; lia|].
    unfold deref. arr. apply Hlo. lia.
  - intros k Hk. rewrite E6.
    destruct (Nat.eq_dec k pi) as [->|N]; [rewrite E6; lia|].
    destruct (Nat.eq_dec k (pr - 1)) as [->|N'].
    + unfold deref. arr. apply Hhi. lia.
    + unfold deref. arr. apply Hhi. lia.
Qed.

Lemma arr_ext (a b : list nat) :
  List.length a = List.length b ->
  (forall k, k < List.length a -> geti a k = geti b k) -> a = b.
Proof. intros L H. now apply (nth_ext _ _ 0 0). Qed.

(** Storing the entry of the place before [pj] at [pj] and the new entry
    before it is an exchange in the array that already holds the new
    entry at [pj]. *)
Lemma shift_is_swap (a : list nat) (pj x : nat) :
  0 < pj -> pj < List.length a ->
  seti (seti a pj (geti a (pj - 1))) (pj - 1) x
  = INTP_SWAP (seti a pj x) (pj - 1) pj.
Proof.
  intros H0 Hl. apply arr_ext; [now arr|].
  intros k Hk. rewrite !seti_length in Hk.
  destruct (Nat.eq_dec k pj) as [->|N].
  - now arr.
  - destruct (Nat.eq_dec k (pj - 1)) as [->|N']; now arr.
Qed.

(** The shifting loop followed by the store of the new entry [x], seen on
    the array that holds [x] at [pj]: [x] moves down to its place. *)
Lemma shift_loop_spec (x pl : nat) :
  forall fuel a pj,
    pl <= pj -> pj < List.length a -> pj - pl <= fuel ->
    sorted_on v (seti a pj x) pl pj ->
    let r := shift_loop fuel v a (key v x) pl pj in
    shuffled pl pj (seti a pj x) (seti (fst r) (snd r) x)
    /\ sorted_on v (seti (fst r) (snd r) x) pl (S pj).
Proof.
  induction fuel as [|f IH]; intros a pj Hpl Hlen Hf Hs.
  - cbn [shift_loop fst snd]. split; [apply shuffled_refl|].
    intros i j Hi Hij Hj. replace i with j by lia. lia.
  - cbn [shift_loop].
    destruct ((pl <? pj) && (key v x <? deref v a (pj - 1))%Z) eqn:E.
    + apply andb_true_iff in E as [E1 E2].
      apply Nat.ltb_lt in E1. apply Z.ltb_lt in E2.
      destruct (IH (seti a pj (geti a (pj - 1))) (pj - 1)) as (S1 & O1);
        try (rewrite ?seti_length; lia).
      { intros i j Hi Hij Hj. unfold deref. arr.
        specialize (Hs i j Hi Hij ltac:(lia)). revert Hs. unfold deref.
        now arr. }
      cbv zeta.
      set (r := shift_loop f v _ (key v x) pl (pj - 1)) in *. clearbody r.
      set (c := seti (fst r) (snd r) x) in *. clearbody c.
      rewrite shift_is_swap in S1 by lia.
      assert (Sb : shuffled pl pj (seti a pj x)
                     (INTP_SWAP (seti a pj x) (pj - 1) pj))
        by (apply shuffled_swap; rewrite ?seti_length; lia).
      split.
      * apply (shuffled_trans _ _ _ _ _ Sb).
        apply (shuffled_mono pl (pj - 1)); [lia|lia|exact S1].
      * intros i j Hi Hij Hj.
        destruct (Nat.eq_dec j pj) as [->|Nj]; [|apply O1; lia].
        destruct (Nat.eq_dec i pj) as [->|Ni]; [lia|].
        rewrite (shuffled_frame _ _ _ _ pj S1) by lia.
        destruct S1 as (_ & _ & _ & M1).
        destruct (M1 i ltac:(lia)) as (i' & Hi' & Ei).
        unfold deref. rewrite Ei. arr.
        destruct (Nat.eq_dec i' (pj - 1)) as [->|N'].
        -- arr. unfold deref in E2. fold (key v x). lia.
        -- arr. specialize (Hs i' (pj - 1) ltac:(lia) ltac:(lia) ltac:(lia)).
           revert Hs. unfold deref. now arr.
    + cbv zeta. cbn [fst snd]. split; [apply shuffled_refl|].
      intros i j Hi Hij Hj.
      destruct (Nat.eq_dec j pj) as [->|Nj]; [|apply Hs; lia].
      destruct (Nat.eq_dec i pj) as [->|Ni]; [lia|].
      apply andb_false_iff in E as [E|E]; [apply Nat.ltb_ge in E; lia|].
      apply Z.ltb_ge in E.
      specialize (Hs i (pj - 1) ltac:(lia) ltac:(lia) ltac:(lia)).
      revert Hs E. unfold deref. arr. fold (key v x). lia.
Qed.

Lemma insertion_loop_sorts (pl pr : nat) :
  forall fuel a pi,
    pl <= pi -> pr < List.length a -> pr + 1 - pi <= fuel ->
    sorted_on v a pl pi ->
    shuffled pl pr a (insertion_loop fuel v a pl pi pr)
    /\ sorted_on v (insertion_loop fuel v a pl pi pr) pl (S pr).
Proof.
  assert (Hdone : forall a pi, pr < pi -> sorted_on v a pl pi ->
            shuffled pl pr a a /\ sorted_on v a pl (S pr)).
  { intros a pi Hpi Hs. split; [apply shuffled_refl|].
    intros i j Hi Hij Hj. apply Hs; lia. }
  induction fuel as [|f IH]; intros a pi Hpl Hlen Hf Hs.
  - cbn [insertion_loop]. apply (Hdone a pi); [lia|exact Hs].
  - cbn [insertion_loop]. destruct (pi <=? pr) eqn:E.
    + apply Nat.leb_le in E.
      destruct (shift_loop_spec (geti a pi) pl (List.length a) a pi)
        as (S1 & O1); try lia.
      { now rewrite seti_geti. }
      rewrite seti_geti in S1. fold (key v (geti a pi)).
      destruct (shift_loop (List.length a) v a (key v (geti a pi)) pl pi)
        as [a' pj].
      cbn [fst snd] in *.
      pose proof (shuffled_length _ _ _ _ S1) as L1.
      destruct (IH (seti a' pj (geti a pi)) (S pi)) as (S2 & O2); try lia.
      { exact O1. }
      split; [|exact O2].
      apply (shuffled_trans _ _ _ (seti a' pj (geti a pi))); [|exact S2].
      apply (shuffled_mono pl pi); [lia|lia|exact S1].
    + apply Nat.leb_gt in E. apply (Hdone a pi); [lia|exact Hs].
Qed.

(** The insertion sort of [aquicksort_] sorts the places [pl..pr] and
    touches no other. *)
Lemma insertion_sort_spec (a : list nat) (pl pr : nat) :
  pl <= pr -> pr < List.length a ->
  shuffled pl pr a (insertion_sort v a pl pr)
  /\ sorted_on v (insertion_sort v a pl pr) pl (S pr).
Proof.
  intros H1 H2. unfold insertion_sort. apply insertion_loop_sorts; try lia.
  intros i j Hi Hij Hj. replace i with j by lia. lia.
Qed.

Lemma hole_is_swap (a : list nat) (p q x : nat) :
  p <> q -> p < List.length a -> q < List.length a ->
  seti (seti a p (geti a q)) q x = INTP_SWAP (seti a p x) p q.
Proof.
  intros N Hp Hq. apply arr_ext; [now arr|].
  intros k Hk. rewrite !seti_length in Hk.
  destruct (Nat.eq_dec k q) as [->|Nq].
  - now arr.
  - destruct (Nat.eq_dec k p) as [->|Np]; now arr.
Qed.

(** The sift-down loop, seen on the array that holds [tmp] at the heap
    index [i]: if only [i] may be smaller than its children, and the
    parent of [i] is not smaller than the children of [i], the loop
    restores the heap from [l] on. *)
Lemma sift_spec (base tmp l n : nat) :
  forall fuel a i,
    1 <= l -> l <= i -> i <= n -> heap_pos base n < List.length a ->
    n + 1 <= fuel + 2 * i ->
    (forall k c, l <= k -> k <> i -> c = 2 * k \/ c = 2 * k + 1 -> c <= n ->
       (deref v (seti a (heap_pos base i) tmp) (heap_pos base c)
        <= deref v (seti a (heap_pos base i) tmp) (heap_pos base k))%Z) ->
    (forall p c, l <= p -> i = 2 * p \/ i = 2 * p + 1 ->
       c = 2 * i \/ c = 2 * i + 1 -> c <= n ->
       (deref v (seti a (heap_pos base i) tmp) (heap_pos base c)
        <= deref v (seti a (heap_pos base i) tmp) (heap_pos base p))%Z) ->
    heap_from v (sift fuel v a base tmp i (i + i) n) base l n
    /\ shuffled (heap_pos base i) (heap_pos base n)
         (seti a (heap_pos base i) tmp)
         (sift fuel v a base tmp i (i + i) n).
Proof.
  assert (Hstop : forall a i,
            1 <= l -> l <= i -> heap_pos base n < List.length a -> i <= n ->
            (forall k c, l <= k -> k <> i -> c = 2 * k \/ c = 2 * k + 1 ->
               c <= n ->
               (deref v (seti a (heap_pos base i) tmp) (heap_pos base c)
                <= deref v (seti a (heap_pos base i) tmp) (heap_pos base k))%Z) ->
            (forall c, c = 2 * i \/ c = 2 * i + 1 -> c <= n ->
               (deref v a (heap_pos base c) <= key v tmp)%Z) ->
            heap_from v (seti a (heap_pos base i) tmp) base l n
            /\ shuffled (heap_pos base i) (heap_pos base n)
                 (seti a (heap_pos base i) tmp)
                 (seti a (heap_pos base i) tmp)).
  { intros a i Hl Hli Hlen Hin H1 Hc. split; [|apply shuffled_refl].
    intros k c Hk Hkc Hcn. destruct (Nat.eq_dec k i) as [->|N].
    - specialize (Hc c Hkc Hcn). revert Hc. unfold heap_pos in *.
      unfold deref. arr. fold (key v tmp). lia.
    - now apply H1. }
  induction fuel as [|f IH]; intros a i Hl Hli Hin Hlen Hf H1 H2.
  - cbn [sift]. apply Hstop; trivial. intros c Hc Hcn. lia.
  - cbn [sift]. destruct (i + i <=? n) eqn:E;
      [|apply Nat.leb_gt in E; apply Hstop; trivial; intros c Hc Hcn; lia].
    apply Nat.leb_le in E.
    set (j := if (i + i <? n)
                 && (deref v a (heap_pos base (i + i))
                     <? deref v a (heap_pos base (i + i + 1)))%Z
              then i + i + 1 else i + i).
    assert (Hj : (j = 2 * i \/ j = 2 * i + 1) /\ j <= n
                 /\ forall c, c = 2 * i \/ c = 2 * i + 1 -> c <= n ->
                    (deref v a (heap_pos base c)
                     <= deref v a (heap_pos base j))%Z).
    { unfold j. destruct (i + i <? n) eqn:E1; cbn [andb].
      - apply Nat.ltb_lt in E1.
        destruct (deref v a (heap_pos base (i + i))
                  <? deref v a (heap_pos base (i + i + 1)))%Z eqn:E2.
        + apply Z.ltb_lt in E2. split; [lia|]. split; [lia|].
          intros c [-> | ->] _.
          * replace (2 * i) with (i + i) by lia. lia.
          * replace (2 * i + 1) with (i + i + 1) by lia. lia.
        + apply Z.ltb_ge in E2. split; [lia|]. split; [lia|].
          intros c [-> | ->] _.
          * replace (2 * i) with (i + i) by lia. lia.
          * replace (2 * i + 1) with (i + i + 1) by lia. lia.
      - apply Nat.ltb_ge in E1. split; [lia|]. split; [lia|].
        intros c [-> | ->] Hc; [|lia].
        replace (2 * i) with (i + i) by lia. lia. }
    clearbody j. destruct Hj as (Hj & Hjn & Hmax).
    destruct (nth tmp v 0 <? deref v a (heap_pos base j))%Z eqn:E3.
    + apply Z.ltb_lt in E3. fold (key v tmp) in E3.
      unfold heap_pos in *.
      destruct (IH (seti a (base + i - 1) (geti a (base + j - 1))) j)
        as (Hh & Hs); try (rewrite ?seti_length; lia).
      * intros k c Hk Hkj Hc Hcn.
        rewrite hole_is_swap by lia.
        destruct (Nat.eq_dec k i) as [->|Nk].
        -- destruct (Nat.eq_dec c j) as [->|Nc].
           ++ unfold deref in *. arr. fold (key v tmp). lia.
           ++ specialize (Hmax c Hc Hcn). revert Hmax. unfold deref. now arr.
        -- destruct (Nat.eq_dec c i) as [->|Nc].
           ++ specialize (H2 k j Hk Hc Hj Hjn). revert H2. unfold deref.
              now arr.
           ++ specialize (H1 k c Hk Nk Hc Hcn). revert H1. unfold deref.
              now arr.
      * intros p c Hp Hjp Hc Hcn.
        rewrite hole_is_swap by lia.
        assert (Ep : p = i) by lia. subst p.
        specialize (H1 j c ltac:(lia) ltac:(lia) Hc Hcn). revert H1.
        unfold deref. now arr.
      * split; [exact Hh|].
        rewrite hole_is_swap in Hs by lia.
        apply (shuffled_trans _ _ _
                 (INTP_SWAP (seti a (base + i - 1) tmp)
                            (base + i - 1) (base + j - 1))).
        -- apply shuffled_swap; rewrite ?seti_length; lia.
        -- apply (shuffled_mono (base + j - 1) (base + n - 1));
             [lia|lia|exact Hs].
    + apply Z.ltb_ge in E3. fold (key v tmp) in E3.
      apply Hstop; trivial. intros c Hc Hcn.
      specialize (Hmax c Hc Hcn). lia.
Qed.

(** First phase of the heapsort: the sifts from [n / 2] down to 1 build
    the heap. *)
Lemma heapify_spec (base n : nat) :
  forall l a,
    2 * l <= n -> heap_pos base n < List.length a ->
    heap_from v a base (l + 1) n ->
    heap_from v (heapify l v a base n) base 1 n
    /\ shuffled (heap_pos base 1) (heap_pos base n) a
         (heapify l v a base n).
Proof.
  induction l as [|l IH]; intros a Hl Hlen Hh.
  - cbn [heapify]. split; [exact Hh | apply shuffled_refl].
  - cbn [heapify].
    destruct (sift_spec base (geti a (heap_pos base (S l))) (S l) n
                (List.length a) a (S l)) as (H1 & S1);
      try (unfold heap_pos in *; lia).
    + intros k c Hk Hki Hc Hcn. rewrite seti_geti.
      apply Hh; trivial. lia.
    + rewrite seti_geti in S1.
      set (a1 := sift (List.length a) v a base _ (S l) (S l + S l) n) in *.
      clearbody a1. pose proof (shuffled_length _ _ _ _ S1) as L1.
      destruct (IH a1) as (H2 & S2); try lia.
      { now replace (l + 1) with (S l) by lia. }
      split; [exact H2|].
      apply (shuffled_trans _ _ _ a1); [|exact S2].
      apply (shuffled_mono (heap_pos base (S l)) (heap_pos base n));
        [unfold heap_pos; lia | lia | exact S1].
Qed.

(** The root of a heap holds a greatest value. *)
Lemma heap_root_max (a : list nat) (base n : nat) :
  heap_from v a base 1 n ->
  forall k, 1 <= k <= n ->
  (deref v a (heap_pos base k) <= deref v a (heap_pos base 1))%Z.
Proof.
  intros Hh k. induction k as [k IH] using (well_founded_induction lt_wf).
  intros Hk. destruct (Nat.eq_dec k 1) as [->|N]; [lia|].
  assert (Hp : exists p, 1 <= p /\ p < k /\ (k = 2 * p \/ k = 2 * p + 1)).
  { destruct (Nat.Even_or_Odd k) as [[p Hp]|[p Hp]]; exists p; lia. }
  destruct Hp as (p & Hp1 & Hpk & Hc).
  specialize (Hh p k Hp1 Hc ltac:(lia)).
  specialize (IH p Hpk ltac:(lia)). lia.
Qed.

(** Second phase: the root goes behind the heap, the heap shrinks by one
    and is restored, until one entry is left. *)
Lemma heap_pop_spec (base N : nat) :
  forall n a,
    n <= N -> 1 <= N -> heap_pos base N < List.length a ->
    heap_from v a base 1 n ->
    sorted_on v a (base + n) (base + N) ->
    (forall k m, 1 <= k <= n -> n < m <= N ->
       (deref v a (heap_pos base k) <= deref v a (heap_pos base m))%Z) ->
    shuffled base (heap_pos base N) a (heap_pop n v a base)
    /\ sorted_on v (heap_pop n v a base) base (base + N).
Proof.
  induction n as [|n IH]; intros a HnN HN Hlen Hh Hs Hx.
  - cbn [heap_pop]. split; [apply shuffled_refl|].
    now replace (base + 0) with base in Hs by lia.
  - cbn [heap_pop]. destruct (1 <? S n) eqn:E.
    + apply Nat.ltb_lt in E.
      set (tmp := geti a (heap_pos base (S n))).
      set (a1 := seti a (heap_pos base (S n)) (geti a (heap_pos base 1))).
      assert (L1 : List.length a1 = List.length a)
        by (unfold a1; apply seti_length).
      assert (Eb : seti a1 (heap_pos base 1) tmp
                   = INTP_SWAP a (heap_pos base (S n)) (heap_pos base 1))
        by reflexivity.
      pose proof (heap_root_max a base (S n) Hh) as Hroot.
      destruct (sift_spec base tmp 1 n (List.length a1) a1 1)
        as (H2 & S2); try (unfold heap_pos in *; lia).
      * intros k c Hk Hk1 Hc Hcn. rewrite Eb.
        specialize (Hh k c Hk Hc ltac:(lia)). revert Hh.
        unfold heap_pos, deref in *. now arr.
      * rewrite Eb in S2. change (1 + 1) with 2 in *.
        set (a2 := sift (List.length a1) v a1 base tmp 1 2 n) in *.
        clearbody a2. clear Eb. clearbody a1 tmp.
        pose proof (shuffled_length _ _ _ _ S2) as L2.
        rewrite swap_length in L2.
        assert (Hb : forall k, 1 <= k <= n ->
                  exists k', 1 <= k' <= S n
                    /\ deref v a2 (heap_pos base k)
                       = deref v a (heap_pos base k')).
        { intros k Hk. destruct S2 as (_ & _ & _ & M2).
          destruct (M2 (heap_pos base k)) as (i' & Hi' & Ei);
            [unfold heap_pos; lia|].
          unfold deref. rewrite Ei. unfold heap_pos in *.
          destruct (Nat.eq_dec i' (base + 1 - 1)) as [->|Ni].
          - exists (S n). split; [lia|]. now arr.
          - exists (i' + 1 - base). split; [lia|]. arr.
            now replace (base + (i' + 1 - base) - 1) with i' by lia. }
        assert (Hf : forall m, S n <= m ->
                  deref v a2 (heap_pos base m)
                  = if m =? S n then deref v a (heap_pos base 1)
                    else deref v a (heap_pos base m)).
        { intros m Hm.
          rewrite (shuffled_frame _ _ _ _ _ S2) by (unfold heap_pos; lia).
          unfold heap_pos, deref in *.
          destruct (Nat.eqb_spec m (S n)) as [->|Nm]; now arr. }
        destruct (IH a2) as (S3 & O3); try lia.
        -- exact H2.
        -- intros i j Hi Hij Hj.
           replace i with (heap_pos base (i + 1 - base))
             by (unfold heap_pos; lia).
           replace j with (heap_pos base (j + 1 - base))
             by (unfold heap_pos; lia).
           rewrite !Hf by lia.
           destruct (Nat.eqb_spec (i + 1 - base) (S n)) as [Ei|Ni];
             destruct (Nat.eqb_spec (j + 1 - base) (S n)) as [Ej|Nj];
             try lia.
           ++ apply Hx; lia.
           ++ specialize (Hs i j ltac:(lia) Hij Hj). revert Hs.
              unfold heap_pos.
              replace (base + (i + 1 - base) - 1) with i by lia.
              now replace (base + (j + 1 - base) - 1) with j by lia.
        -- intros k m Hk Hm. rewrite (Hf m) by lia.
           destruct (Hb k Hk) as (k' & Hk' & ->).
           destruct (Nat.eqb_spec m (S n)) as [->|Nm].
           ++ now apply Hroot.
           ++ apply Hx; lia.
        -- split; [|exact O3].
           apply (shuffled_trans _ _ _
                    (INTP_SWAP a (heap_pos base (S n)) (heap_pos base 1))).
           ++ apply shuffled_swap; unfold heap_pos in *; lia.
           ++ apply (shuffled_trans _ _ _ a2); [|exact S3].
              apply (shuffled_mono (heap_pos base 1) (heap_pos base n));
                [unfold heap_pos; lia | unfold heap_pos; lia | exact S2].
    + apply Nat.ltb_ge in E. assert (n = 0) by lia. subst n.
      split; [apply shuffled_refl|].
      intros i j Hi Hij Hj.
      destruct (Nat.eq_dec i base) as [->|Ni]; [|apply Hs; lia].
      destruct (Nat.eq_dec j base) as [->|Nj]; [lia|].
      specialize (Hx 1 (j + 1 - base) ltac:(lia) ltac:(lia)). revert Hx.
      unfold heap_pos.
      replace (base + 1 - 1) with base by lia.
      now replace (base + (j + 1 - base) - 1) with j by lia.
Qed.

(** The heapsort of the places [pl..pr]. *)
Lemma aheapsort_spec (a : list nat) (pl pr : nat) :
  pl <= pr -> pr < List.length a ->
  shuffled pl pr a (aheapsort v a pl (pr - pl + 1))
  /\ sorted_on v (aheapsort v a pl (pr - pl + 1)) pl (S pr).
Proof.
  intros H1 H2. unfold aheapsort.
  set (n := pr - pl + 1).
  pose proof (half_bounds n) as Hh.
  assert (Ep : heap_pos pl n = pr) by (unfold heap_pos, n; lia).
  assert (E1 : heap_pos pl 1 = pl) by (unfold heap_pos; lia).
  destruct (heapify_spec pl n (n / 2) a) as (Ha & Sa); try lia.
  { intros k c Hk Hc Hcn. lia. }
  set (a1 := heapify (n / 2) v a pl n) in *. clearbody a1.
  pose proof (shuffled_length _ _ _ _ Sa) as La.
  destruct (heap_pop_spec pl n n a1) as (Sb & Ob); try lia.
  - exact Ha.
  - intros i j Hi Hij Hj. lia.
  - rewrite Ep, E1 in *. split.
    + exact (shuffled_trans _ _ _ _ _ Sa Sb).
    + now replace (S pr) with (pl + n) by (unfold n; lia).
Qed.

(** Work inside the partition [pl..pr] keeps the invariant, for any new
    list of partitions that keeps the other ones and accounts for the
    order of the places of [pl..pr]. *)
Lemma sort_inv_change (n : nat) (a a' : list nat) (pl pr : nat)
    (Q P' : list (nat * nat)) :
  sort_inv v n a ((pl, pr) :: Q) ->
  shuffled pl pr a a' ->
  (forall s, In s P' -> fst s <= snd s < n) ->
  apart P' ->
  (forall s, In s Q -> In s P') ->
  (forall i j, pl <= i -> i < j -> j <= pr ->
     (exists s, In s P' /\ fst s <= i /\ j <= snd s)
     \/ (deref v a' i <= deref v a' j)%Z) ->
  sort_inv v n a' P'.
Proof.
  intros (L & P & V & (A & _) & O) Sh V' A' Hq Hin.
  pose proof Sh as (L' & P1 & F & M).
  split; [congruence|]. split; [now rewrite P|]. split; [exact V'|].
  split; [exact A'|].
  assert (Hseg : pl <= pr < n) by (apply (V (pl, pr)); now left).
  cbn [fst snd] in *.
  assert (Hout : forall i j, i < j < n -> i < pl \/ pr < j ->
            (exists s, In s Q /\ fst s <= i /\ j <= snd s)
            \/ (deref v a i <= deref v a j)%Z).
  { intros i j Hij Hi. destruct (O i j Hij) as [(s & [<-|Hs] & Hsi & Hsj)|H].
    - cbn [fst snd] in *. lia.
    - left. now exists s.
    - now right. }
  intros i j Hij.
  destruct (Nat.lt_ge_cases i pl) as [Hi|Hi];
    [|destruct (Nat.lt_ge_cases pr i) as [Hi'|Hi']].
  - (* [i] before the partition *)
    destruct (Nat.lt_ge_cases j pl) as [Hj|Hj];
      [|destruct (Nat.lt_ge_cases pr j) as [Hj'|Hj']].
    + unfold deref. rewrite !F by lia.
      destruct (Hout i j Hij ltac:(lia)) as [(s & Hs & Hb)|H];
        [left; exists s; split; [now apply Hq | exact Hb] | now right].
    + unfold deref. rewrite !F by lia.
      destruct (Hout i j Hij ltac:(lia)) as [(s & Hs & Hb)|H];
        [left; exists s; split; [now apply Hq | exact Hb] | now right].
    + destruct (M j ltac:(lia)) as (j' & Hj'' & Ej).
      unfold deref. rewrite Ej, F by lia.
      destruct (Hout i j' ltac:(lia) ltac:(lia))
        as [(s & Hs & Hsi & Hsj)|H]; [|now right].
      destruct (A s Hs); lia.
  - (* [i] after the partition *)
    unfold deref. rewrite !F by lia.
    destruct (Hout i j Hij ltac:(lia)) as [(s & Hs & Hb)|H];
      [left; exists s; split; [now apply Hq | exact Hb] | now right].
  - (* [i] in the partition *)
    destruct (Nat.lt_ge_cases pr j) as [Hj|Hj].
    + destruct (M i ltac:(lia)) as (i' & Hi'' & Ei).
      unfold deref. rewrite Ei, F by lia.
      destruct (Hout i' j ltac:(lia) ltac:(lia))
        as [(s & Hs & Hsi & Hsj)|H]; [|now right].
      destruct (A s Hs); lia.
    + apply Hin; lia.
Qed.

(** A partition that has been sorted leaves the list. *)
Lemma sort_inv_sorted (n : nat) (a a' : list nat) (pl pr : nat)
    (Q : list (nat * nat)) :
  sort_inv v n a ((pl, pr) :: Q) ->
  shuffled pl pr a a' ->
  sorted_on v a' pl (S pr) ->
  sort_inv v n a' Q.
Proof.
  intros Hinv Sh Hs. apply (sort_inv_change n a a' pl pr Q Q Hinv Sh).
  - intros s Hs'. destruct Hinv as (_ & _ & V & _). apply V. now right.
  - destruct Hinv as (_ & _ & _ & (_ & A) & _). exact A.
  - trivial.
  - intros i j Hi Hij Hj. right. apply Hs; lia.
Qed.

(** A partition that has been split around [pi] is replaced by its two
    parts. *)
Lemma sort_inv_split (n : nat) (a a' : list nat) (pl pr pi : nat)
    (Q : list (nat * nat)) :
  sort_inv v n a ((pl, pr) :: Q) ->
  shuffled pl pr a a' ->
  pl < pi < pr ->
  (forall k, pl <= k <= pi -> (deref v a' k <= deref v a' pi)%Z) ->
  (forall k, pi <= k <= pr -> (deref v a' pi <= deref v a' k)%Z) ->
  sort_inv v n a' ((pl, pi - 1) :: (pi + 1, pr) :: Q)
  /\ sort_inv v n a' ((pi + 1, pr) :: (pl, pi - 1) :: Q).
Proof.
  intros Hinv Sh Hpi Hlo Hhi.
  pose proof Hinv as (_ & _ & V & (A & A') & _).
  assert (Hseg : pl <= pr < n) by (apply (V (pl, pr)); now left).
  cbn [fst snd] in *.
  assert (Hin : forall P', In (pl, pi - 1) P' -> In (pi + 1, pr) P' ->
            forall i j, pl <= i -> i < j -> j <= pr ->
            (exists s, In s P' /\ fst s <= i /\ j <= snd s)
            \/ (deref v a' i <= deref v a' j)%Z).
  { intros P' H1 H2 i j Hi Hij Hj.
    destruct (Nat.lt_ge_cases j pi) as [Hjp|Hjp].
    - left. exists (pl, pi - 1). cbn. split; [exact H1|lia].
    - destruct (Nat.lt_ge_cases pi i) as [Hip|Hip].
      + left. exists (pi + 1, pr). cbn. split; [exact H2|lia].
      + right. specialize (Hlo i ltac:(lia)). specialize (Hhi j ltac:(lia)).
        lia. }
  split.
  - apply (sort_inv_change n a a' pl pr Q _ Hinv Sh).
    + intros s [<-|[<-|Hs]]; cbn; [lia|lia|]. apply V. now right.
    + cbn [apart]. split; [|split; [|exact A']].
      * intros t [<-|Ht]; cbn; [lia|]. destruct (A t Ht); lia.
      * intros t Ht. cbn. destruct (A t Ht); lia.
    + intros s Hs. now right; right.
    + apply Hin; [now left | now right; left].
  - apply (sort_inv_change n a a' pl pr Q _ Hinv Sh).
    + intros s [<-|[<-|Hs]]; cbn; [lia|lia|]. apply V. now right.
    + cbn [apart]. split; [|split; [|exact A']].
      * intros t [<-|Ht]; cbn; [lia|]. destruct (A t Ht); lia.
      * intros t Ht. cbn. destruct (A t Ht); lia.
    + intros s Hs. now right; right.
    + apply Hin; [now right; left | now left].
Qed.

Lemma pending_size_cons (lo hi : nat) (P : list (nat * nat)) :
  pending_size ((lo, hi) :: P) = hi + 1 - lo + pending_size P.
Proof. reflexivity. Qed.

(** The splitting loop keeps the invariant and postpones no more places
    than it was given. *)
Lemma split_loop_spec (n : nat) :
  forall fuel a pl pr stack cdepth,
    sort_inv v n a ((pl, pr) :: map bounds stack) ->
    let '(a', pl', pr', stack') := split_loop fuel v a pl pr stack cdepth in
    sort_inv v n a' ((pl', pr') :: map bounds stack')
    /\ pending_size ((pl', pr') :: map bounds stack')
       <= pending_size ((pl, pr) :: map bounds stack).
Proof.
  induction fuel as [|f IH]; intros a pl pr stack cdepth Hinv;
    [cbn [split_loop]; split; [exact Hinv | lia]|].
  cbn [split_loop]. destruct (SMALL_QUICKSORT <? pr - pl) eqn:E;
    [|split; [exact Hinv | lia]].
  apply Nat.ltb_lt in E. unfold SMALL_QUICKSORT in E.
  pose proof Hinv as (L & _ & V & _).
  assert (Hseg : pl <= pr < n) by (apply (V (pl, pr)); now left).
  destruct (partition_step_spec a pl pr ltac:(lia) ltac:(lia))
    as (Sh & Hpi & Hlo & Hhi).
  destruct (partition_step v a pl pr) as [a1 pi]. cbn [fst snd] in *.
  destruct (sort_inv_split n a a1 pl pr pi _ Hinv Sh Hpi Hlo Hhi)
    as [I1 I2].
  destruct (pi - pl <? pr - pi).
  - specialize (IH a1 pl (pi - 1) ((pi + 1, pr, (cdepth - 1)%Z) :: stack)
                  (cdepth - 1)%Z I1).
    destruct (split_loop f v a1 pl (pi - 1) _ _) as [[[a' pl'] pr'] stack'].
    destruct IH as [IH1 IH2]. split; [exact IH1|].
    revert IH2. cbn [map]. unfold bounds at 2. cbn [fst snd]. rewrite !pending_size_cons. lia.
  - specialize (IH a1 (pi + 1) pr ((pl, pi - 1, (cdepth - 1)%Z) :: stack)
                  (cdepth - 1)%Z I2).
    destruct (split_loop f v a1 (pi + 1) pr _ _) as [[[a' pl'] pr'] stack'].
    destruct IH as [IH1 IH2]. split; [exact IH1|].
    revert IH2. cbn [map]. unfold bounds at 2. cbn [fst snd]. rewrite !pending_size_cons. lia.
Qed.

(** The loop of [aquicksort_] ends with every place in order. *)
Lemma sort_loop_spec (n : nat) :
  forall fuel a pl pr stack cdepth,
    sort_inv v n a ((pl, pr) :: map bounds stack) ->
    pending_size ((pl, pr) :: map bounds stack) <= fuel ->
    let r := sort_loop fuel v a pl pr stack cdepth in
    Permutation (seq 0 n) r /\ List.length r = n /\ sorted_on v r 0 n.
Proof.
  induction fuel as [|f IH]; intros a pl pr stack cdepth Hinv Hf.
  - destruct Hinv as (_ & _ & V & _).
    specialize (V (pl, pr) ltac:(now left)). rewrite pending_size_cons in Hf.
    cbn [fst snd] in V. lia.
  - cbn [sort_loop].
    assert (Hstep : forall a' stack',
              sort_inv v n a' (map bounds stack') ->
              pending_size (map bounds stack') <= f ->
              let r := match stack' with
                       | [] => a'
                       | (pl', pr', d) :: rest => sort_loop f v a' pl' pr' rest d
                       end in
              Permutation (seq 0 n) r /\ List.length r = n
              /\ sorted_on v r 0 n).
    { intros a' [|[[pl' pr'] d] rest] Hinv' Hf'.
      - destruct Hinv' as (L & P & _ & _ & O). cbv zeta.
        split; [exact P|]. split; [exact L|].
        intros i j _ Hij Hj. destruct (Nat.eq_dec i j) as [->|N]; [lia|].
        destruct (O i j ltac:(lia)) as [(s & [] & _)|H]. exact H.
      - now apply IH. }
    destruct (cdepth <? 0)%Z.
    + pose proof Hinv as (L & _ & V & _).
      assert (Hseg : pl <= pr < n) by (apply (V (pl, pr)); now left).
      destruct (aheapsort_spec a pl pr ltac:(lia) ltac:(lia)) as [Sh Hs].
      cbv zeta. apply Hstep.
      * exact (sort_inv_sorted n a _ pl pr _ Hinv Sh Hs).
      * revert Hf. rewrite !pending_size_cons. lia.
    + pose proof (split_loop_spec n (List.length a) a pl pr stack cdepth Hinv)
        as Hsp.
      destruct (split_loop (List.length a) v a pl pr stack cdepth)
        as [[[a1 pl1] pr1] stack1].
      destruct Hsp as [I1 Hsz].
      pose proof I1 as (L & _ & V & _).
      assert (Hseg : pl1 <= pr1 < n) by (apply (V (pl1, pr1)); now left).
      destruct (insertion_sort_spec a1 pl1 pr1 ltac:(lia) ltac:(lia))
        as [Sh Hs].
      cbv zeta. apply Hstep.
      * exact (sort_inv_sorted n a1 _ pl1 pr1 _ I1 Sh Hs).
      * revert Hf Hsz. rewrite !pending_size_cons. lia.
Qed.

Lemma sorted_on_sorted_b (a : list nat) :
  sorted_on v a 0 (List.length a) ->
  sorted_b (map (fun i => nth i v 0%Z) a) = true.
Proof.
  induction a as [|x a IH]; intros Hs; [reflexivity|].
  destruct a as [|y a]; [reflexivity|].
  cbn [map sorted_b]. apply andb_true_iff. split.
  - apply Z.leb_le. apply (Hs 0 1); cbn [List.length]; lia.
  - apply IH. intros i j Hi Hij Hj.
    apply (Hs (S i) (S j)); cbn [List.length] in *; lia.
Qed.

(** The index sort returns, for every column, a permutation of its
    positions that puts the values in non-decreasing order. *)
Lemma npy_aquicksort_sorts : argsort_ok v (npy_aquicksort v) = true.
Proof.
  unfold npy_aquicksort.
  destruct (Nat.eq_dec (List.length v) 0) as [E|N].
  - rewrite E. destruct v; [reflexivity | discriminate].
  - set (n := List.length v) in *.
    destruct (sort_loop_spec n (S n) (seq 0 n) 0 (n - 1) [] (depth_limit n))
      as (P & L & O).
    + split; [apply length_seq|]. split; [reflexivity|].
      split; [intros s [<-|[]]; cbn; lia|].
      split; [cbn; split; [intros t []|exact I]|].
      intros i j Hij. left. exists (0, n - 1). cbn. split; [now left|lia].
    + cbn [map]. rewrite pending_size_cons. unfold pending_size. cbn. lia.
    + unfold argsort_ok. apply andb_true_iff. split.
      * apply Permutation_is_indexer. symmetry. exact P.
      * apply sorted_on_sorted_b. now rewrite L.
Qed.

End IndexSort.

(** C4 (as amended): for every input table the rows of the output are
    sorted ascending by the converted identifier.  Whenever the
    conversion of the surviving rows succeeds, the sort that follows, the
    default quicksort of numpy, succeeds as well and returns the same
    rows with center_id non-decreasing from top to bottom; so in every
    run that ends well the lines of the file written have their
    center_id in non-decreasing order.  Nothing is assumed of the sort.
    The order of rows with equal identifiers is the one the quicksort
    leaves them in; it is not promised to be the original one. *)
Theorem output_sorted_by_center_id :
  (forall (excel_df : list StrRow) (latest : string) (df : list Row),
     assign (row_filter excel_df) latest = inr df ->
     exists out,
       transform npy_aquicksort excel_df latest = inr out
       /\ Permutation df out
       /\ Sorted Z.le (map center_id out))
  /\ (forall env src dst tr,
       process npy_aquicksort env src dst = (tr, inr tt) ->
       forall p rows, In (ToCsv p rows) tr ->
       Sorted Z.le (map csv_center_id rows)).
Proof.
  assert (Ht : forall excel_df latest df,
            assign (row_filter excel_df) latest = inr df ->
            exists out,
              transform npy_aquicksort excel_df latest = inr out
              /\ Permutation df out
              /\ Sorted Z.le (map center_id out)).
  { intros excel_df latest df Ha.
    destruct (sort_values_sorted npy_aquicksort df
                (npy_aquicksort_sorts (map center_id df)))
      as (out & Hs & Hperm & Hsorted).
    exists out. repeat split; trivial.
    unfold transform. now rewrite Ha. }
  split; [exact Ht|].
  intros env src dst tr H p rows Hin.
  apply process_ok_inv in H
    as (latest & file & cells & out & _ & _ & _ & Hout & _ & ->).
  apply in_trace_ToCsv in Hin as [_ ->].
  destruct (assign (row_filter (frame_of_sheet cells)) latest)
    as [e|df] eqn:Ha;
    [unfold transform in Hout; rewrite Ha in Hout; discriminate|].
  destruct (Ht _ _ _ Ha) as (out' & Hout' & _ & Hsorted).
  rewrite Hout in Hout'. injection Hout' as <-.
  rewrite map_map. exact Hsorted.
Qed.

Lemma output_sorted_by_center_id_witness :
  assign (row_filter (frame_of_sheet scenario_sheet)) "2023-06-15"
  = inr [mkRow 0 12 (Some "LFL") "2023-06-15";
         mkRow 1 7 (Some "Non-LFL") "2023-06-15"]%string
  /\ (exists out,
        transform npy_aquicksort (frame_of_sheet scenario_sheet) "2023-06-15"
        = inr out
        /\ Permutation
             [mkRow 0 12 (Some "LFL") "2023-06-15";
              mkRow 1 7 (Some "Non-LFL") "2023-06-15"]%string out
        /\ Sorted Z.le (map center_id out))
  /\ process npy_aquicksort scenario "data" "out.csv"
     = (scenario_trace, inr tt)
  /\ (forall p rows, In (ToCsv p rows) scenario_trace ->
      Sorted Z.le (map csv_center_id rows)).
Proof.
  destruct output_sorted_by_center_id as [Ht Hp].
  split; [vm_compute; reflexivity|]. split.
  - apply (Ht (frame_of_sheet scenario_sheet) "2023-06-15"%string).
    vm_compute. reflexivity.
  - split; [vm_compute; reflexivity|].
    apply (Hp scenario "data"%string "out.csv"%string).
    vm_compute. reflexivity.
Defined.

(** C4, the claim as stated fails: eighteen rows share the identifier 5,
    and the quicksort hands them back in another order than they had in
    the sheet; the row that was second, the only one with status "LFL",
    is written sixteenth. *)
Lemma equal_identifiers_are_reordered :
  exists out,
    transform npy_aquicksort (frame_of_sheet ties_sheet) "2023-06-15"
    = inr out
    /\ map index out
       = [0; 15; 14; 13; 12; 11; 10; 9; 8; 7; 6; 5; 4; 3; 2; 1; 16; 17]%nat
    /\ map center_id out = repeat 5 18
    /\ ties_in_order out = false
    /\ nth_error (map lfl_status out) 15 = Some (Some "LFL"%string)
    /\ snd (process npy_aquicksort ties "data" "out.csv") = inr tt
    /\ In (ToCsv "out.csv" (map csv_row out))
          (fst (process npy_aquicksort ties "data" "out.csv")).
Proof.
  eexists. split; [vm_compute; reflexivity|].
  vm_compute. repeat split. right. left. reflexivity.
Qed.
